(** * Vehicle inspection backend: validation, check service and data access

    A shallow embedding of [backend/src/validation.ts],
    [backend/src/services/checkService.ts] and [backend/src/database.ts],
    together with the properties of the inspection-check domain that the
    specification states about them.

    Conventions of the embedding.
    - The request body handed to the validator is untyped ([body: any]); it
      is a [value], the JavaScript values a JSON body parser can produce
      plus [undefined].
    - The service layer is typed by [types.ts]; its records are Rocq
      records, the string-literal unions [CheckItemKey] and
      [CheckItemStatus] stay strings, as they are at run time.
    - The two JSON files are the fields of a [World]; a file that cannot be
      read or parsed is [None].  [console.error] output is not modelled.
    - An exception is the [Throw] case of [result]. *)

From Stdlib Require Import QArith.
From stdpp Require Import gmap strings list pretty sorting.

Local Close Scope Q_scope.
Local Set Warnings "-register-all".

(** ** JavaScript values *)

(** A JavaScript number: a finite double is the rational it denotes. *)
Inductive number : Type :=
| NaN
| Finite (q : Q)
| Infinity (negative : bool).

Inductive value : Type :=
| VUndefined
| VNull
| VBool (b : bool)
| VNum (n : number)
| VStr (s : string)
| VArr (elems : list value)
| VObj (props : list (string * value)).

Inductive exn : Type :=
| TypeError
| IOError.

Inductive result (A : Type) : Type :=
| Ok (a : A)
| Throw (e : exn).
Arguments Ok {A} a.
Arguments Throw {A} e.

(** Own properties of an object, first binding first. *)
Fixpoint own_prop (k : string) (props : list (string * value)) : value :=
  match props with
  | [] => VUndefined
  | (k', v) :: rest => if String.eqb k k' then v else own_prop k rest
  end.

(** [v.k].  Reading a property of [undefined] or [null] is a TypeError.
    On the other primitives and on arrays the lookup goes to the
    prototype, which has none of the names this program reads
    ([vehicleId], [odometerKm], [items], [note], [key], [status]). *)
Definition get (v : value) (k : string) : result value :=
  match v with
  | VUndefined | VNull => Throw TypeError
  | VObj props => Ok (own_prop k props)
  | VBool _ | VNum _ | VStr _ | VArr _ => Ok VUndefined
  end.

Definition number_truthy (n : number) : bool :=
  match n with
  | NaN => false
  | Finite q => negb (Qeq_bool q 0)
  | Infinity _ => true
  end.

(** ToBoolean. *)
Definition truthy (v : value) : bool :=
  match v with
  | VUndefined | VNull => false
  | VBool b => b
  | VNum n => number_truthy n
  | VStr s => negb (String.eqb s "")
  | VArr _ | VObj _ => true
  end.

(** [v === undefined], [v === null]. *)
Definition is_undefined (v : value) : bool :=
  match v with VUndefined => true | _ => false end.
Definition is_null (v : value) : bool :=
  match v with VNull => true | _ => false end.

(** [s === v] for a string [s]. *)
Definition str_strict_eq (s : string) (v : value) : bool :=
  match v with VStr s' => String.eqb s s' | _ => false end.

(** [n <= 0] on numbers. *)
Definition number_le_zero (n : number) : bool :=
  match n with
  | NaN => false
  | Finite q => Qle_bool q 0
  | Infinity negative => negative
  end.

(** [l.includes(v)] for an array of strings (SameValueZero). *)
Definition includes (l : list string) (v : value) : bool :=
  existsb (λ s, str_strict_eq s v) l.

(** [l.join(sep)]. *)
Fixpoint join (sep : string) (l : list string) : string :=
  match l with
  | [] => ""
  | [x] => x
  | x :: rest => x +:+ sep +:+ join sep rest
  end.

(** ** types.ts *)

Record Vehicle : Type := {
  vehicle_id : string;
  registration : string;
  make : string;
  model : string;
  year : number;
}.

Record CheckItem : Type := {
  key : string;
  status : string;
}.

(** [check_note] is [None] when the object has no [note] property, and
    otherwise the value of that property as it is at run time. *)
Record Check : Type := {
  check_id : string;
  check_vehicleId : string;
  check_odometerKm : number;
  check_items : list CheckItem;
  check_note : option value;
  check_hasIssue : bool;
  check_createdAt : string;
}.

Record ValidationError : Type := {
  field : string;
  reason : string;
}.

(** ** database.ts *)

(** The data directory.  [vehicles_file] and [checks_file] hold what
    [JSON.parse(fs.readFileSync(...))] yields, [None] when either step
    throws.  [write_fault] says whether [fs.writeFileSync] on the checks
    file throws; [write_calls] counts the calls made to it. *)
Record World : Type := {
  vehicles_file : option (list Vehicle);
  checks_file : option (list Check);
  write_fault : bool;
  write_calls : nat;
}.

(** [try { ... } catch (error) { ... }]. *)
Definition try_catch {A} (body : result A) (handler : exn → result A) : result A :=
  match body with
  | Ok a => Ok a
  | Throw e => handler e
  end.

Definition from_file {A} (file : option A) : result A :=
  match file with
  | Some data => Ok data
  | None => Throw IOError
  end.

Definition readVehicles (w : World) : result (list Vehicle) :=
  try_catch (from_file (vehicles_file w)) (λ _, Ok []).

Definition readChecks (w : World) : result (list Check) :=
  try_catch (from_file (checks_file w)) (λ _, Ok []).

(** [fs.writeFileSync(CHECKS_FILE, ...)]: replaces the file, or throws and
    leaves it as it was. *)
Definition writeFileSync_checks (checks : list Check) (w : World) : result unit * World :=
  if write_fault w
  then (Throw IOError,
        {| vehicles_file := vehicles_file w; checks_file := checks_file w;
           write_fault := write_fault w; write_calls := S (write_calls w) |})
  else (Ok (),
        {| vehicles_file := vehicles_file w; checks_file := Some checks;
           write_fault := write_fault w; write_calls := S (write_calls w) |}).

Definition writeChecks (checks : list Check) (w : World) : result unit * World :=
  match writeFileSync_checks checks w with
  | (Ok u, w') => (Ok u, w')
  | (Throw error, w') => (Throw error, w')
  end.

Definition vehicleExists (w : World) (vehicleId : string) : result bool :=
  match readVehicles w with
  | Ok vehicles => Ok (existsb (λ v, String.eqb (vehicle_id v) vehicleId) vehicles)
  | Throw e => Throw e
  end.

(** ** validation.ts *)

Definition VALID_KEYS : list string :=
  ["TYRES"; "BRAKES"; "LIGHTS"; "OIL"; "COOLANT"].

Definition VALID_STATUSES : list string := ["OK"; "FAIL"].

(** The validator pushes onto its local [errors] array and may be cut
    short by an exception: a state monad over the array, inside [result]. *)
Definition Validator (A : Type) : Type :=
  list ValidationError → result (A * list ValidationError).

Global Instance Validator_ret : MRet Validator :=
  λ A (a : A) errors, Ok (a, errors).

Global Instance Validator_bind : MBind Validator :=
  λ A B (f : A → Validator B) (m : Validator A) errors,
    match m errors with
    | Ok (a, errors') => f a errors'
    | Throw e => Throw e
    end.

(** [errors.push(e)]. *)
Definition push (e : ValidationError) : Validator unit :=
  λ errors, Ok ((), errors ++ [e]).

Definition lift {A} (r : result A) : Validator A :=
  λ errors,
    match r with
    | Ok a => Ok (a, errors)
    | Throw e => Throw e
    end.

Definition error (f r : string) : ValidationError :=
  {| field := f; reason := r |}.

(** [keys.add(v)] on the [Set<string>] of the validator; it is only
    reached with a string. *)
Definition keys_add (v : value) (keys : gset string) : gset string :=
  match v with
  | VStr s => {[s]} ∪ keys
  | _ => keys
  end.

(** [validateCheckRequest] block by block, as the comments of the source
    divide it: [// Validate vehicleId], [// Validate odometerKm],
    [// Validate items array], [// Validate optional note field]. *)
Definition validateVehicleId (w : World) (body : value) : Validator unit :=
  vehicleId ← lift (get body "vehicleId");
  if negb (truthy vehicleId) then
    push (error "vehicleId" "is required")
  else
    match vehicleId with
    | VStr id =>
        found ← lift (vehicleExists w id);
        if negb found then push (error "vehicleId" "vehicle does not exist")
        else mret ()
    | _ => push (error "vehicleId" "must be a string")
    end.

Definition validateOdometerKm (body : value) : Validator unit :=
  odometerKm ← lift (get body "odometerKm");
  if is_undefined odometerKm || is_null odometerKm then
    push (error "odometerKm" "is required")
  else
    match odometerKm with
    | VNum n =>
        if number_le_zero n then push (error "odometerKm" "must be > 0")
        else mret ()
    | _ => push (error "odometerKm" "must be a number")
    end.

(** The callback of [body.items.forEach]; [keys] is the set it closes
    over. *)
Definition validateItem (item : value) (index : nat) (keys : gset string)
  : Validator (gset string) :=
  k ← lift (get item "key");
  keys' ← (if negb (truthy k) then
             push (error ("items[" +:+ pretty index +:+ "].key") "is required");;
             mret keys
           else if negb (includes VALID_KEYS k) then
             push (error ("items[" +:+ pretty index +:+ "].key")
                         ("must be one of: " +:+ join ", " VALID_KEYS));;
             mret keys
           else mret (keys_add k keys));
  st ← lift (get item "status");
  (if negb (truthy st) then
     push (error ("items[" +:+ pretty index +:+ "].status") "is required")
   else if negb (includes VALID_STATUSES st) then
     push (error ("items[" +:+ pretty index +:+ "].status")
                 ("must be one of: " +:+ join ", " VALID_STATUSES))
   else mret ());;
  mret keys'.

Fixpoint forEach_item (items : list value) (index : nat) (keys : gset string)
  : Validator (gset string) :=
  match items with
  | [] => mret keys
  | item :: rest =>
      keys' ← validateItem item index keys;
      forEach_item rest (S index) keys'
  end.

(** [VALID_KEYS.forEach((key) => { if (!keys.has(key)) ... })]. *)
Fixpoint forEach_required (required : list string) (keys : gset string)
  : Validator unit :=
  match required with
  | [] => mret ()
  | k :: rest =>
      (if negb (bool_decide (k ∈ keys)) then
         push (error "items" ("missing required key: " +:+ k))
       else mret ());;
      forEach_required rest keys
  end.

Definition validateItems (body : value) : Validator unit :=
  items ← lift (get body "items");
  if negb (truthy items) then
    push (error "items" "is required")
  else
    match items with
    | VArr elems =>
        (if negb (length elems =? 5) then
           push (error "items" "must contain exactly 5 items")
         else mret ());;
        keys ← forEach_item elems 0 ∅;
        (if (length elems =? 5) && negb (size keys =? 5) then
           push (error "items"
                       "must contain all 5 keys exactly once (no duplicates)")
         else mret ());;
        forEach_required VALID_KEYS keys
    | _ => push (error "items" "must be an array")
    end.

Definition validateNote (body : value) : Validator unit :=
  note ← lift (get body "note");
  if negb (is_undefined note) && negb (is_null note) then
    match note with
    | VStr s =>
        if 300 <? String.length s then
          push (error "note" "must be <= 300 characters")
        else mret ()
    | _ => push (error "note" "must be a string")
    end
  else mret ().

Definition validateCheckRequest (w : World) (body : value)
  : result (list ValidationError) :=
  match (validateVehicleId w body;;
         validateOdometerKm body;;
         validateItems body;;
         validateNote body) [] with
  | Ok (_, errors) => Ok errors
  | Throw e => Throw e
  end.

(** ** services/checkService.ts *)

(** [note] is the value of [checkData.note], [VUndefined] when the caller
    supplies none.  [excess] holds the properties the caller's object has
    beyond the interface (a request body passed on as it came); the
    service reads none of them. *)
Record CreateCheckData : Type := {
  vehicleId : string;
  odometerKm : number;
  items : list CheckItem;
  note : value;
  excess : list (string * value);
}.

Record CheckFilters : Type := {
  filter_vehicleId : string;
  filter_hasIssue : option bool;
}.

(** A service call reads and may replace the checks file, and may throw. *)
Definition Service (A : Type) : Type := World → result A * World.

Global Instance Service_ret : MRet Service :=
  λ A (a : A) w, (Ok a, w).

Global Instance Service_bind : MBind Service :=
  λ A B (f : A → Service B) (m : Service A) w,
    match m w with
    | (Ok a, w') => f a w'
    | (Throw e, w') => (Throw e, w')
    end.

Definition reading {A} (read : World → result A) : Service A :=
  λ w, (read w, w).

(** [...(cond && { note: v })]: the property is there when [cond] holds. *)
Definition spread_note (cond : bool) (v : value) : option value :=
  if cond then Some v else None.

(** [uuid] is what [uuidv4()] returns and [now] what
    [new Date().toISOString()] returns in this call. *)
Definition createCheck (uuid now : string) (checkData : CreateCheckData)
  : Service Check :=
  let hasIssue := existsb (λ item, String.eqb (status item) "FAIL") (items checkData) in
  let newCheck :=
    {| check_id := uuid;
       check_vehicleId := vehicleId checkData;
       check_odometerKm := odometerKm checkData;
       check_items := items checkData;
       check_note := spread_note (negb (is_undefined (note checkData))) (note checkData);
       check_hasIssue := hasIssue;
       check_createdAt := now |} in
  checks ← reading readChecks;
  writeChecks (checks ++ [newCheck]);;
  mret newCheck.

Definition getCheckById (checkId : string) : Service (option Check) :=
  checks ← reading readChecks;
  mret (find (λ check, String.eqb (check_id check) checkId) checks).

Definition deleteCheck (checkId : string) : Service bool :=
  checks ← reading readChecks;
  let initialLength := length checks in
  let filteredChecks := filter (λ check, check_id check ≠ checkId) checks in
  if length filteredChecks =? initialLength then mret false
  else writeChecks filteredChecks;; mret true.

Section getChecks.

(** [new Date(s).getTime()]: milliseconds since the epoch, [None] for the
    NaN of an invalid date. *)
Variable Date_getTime : string → option Z.

(** The comparator handed to [sort]; [None] is a NaN difference. *)
Definition newest_first (a b : Check) : option Z :=
  match Date_getTime (check_createdAt b), Date_getTime (check_createdAt a) with
  | Some tb, Some ta => Some (tb - ta)%Z
  | _, _ => None
  end.

(** [Array.prototype.sort] is stable: [x] goes behind [y] only when the
    comparator says [x] sorts after [y] (a positive number); a NaN
    counts as zero. *)
Definition sorts_after (cmp : Check → Check → option Z) (x y : Check) : bool :=
  match cmp x y with
  | Some d => (0 <? d)%Z
  | None => false
  end.

Fixpoint sort_insert (cmp : Check → Check → option Z) (x : Check) (l : list Check)
  : list Check :=
  match l with
  | [] => [x]
  | y :: rest =>
      if sorts_after cmp x y then y :: sort_insert cmp x rest
      else x :: y :: rest
  end.

Definition sort (cmp : Check → Check → option Z) (l : list Check) : list Check :=
  foldr (sort_insert cmp) [] l.

Definition getChecks (filters : CheckFilters) : Service (list Check) :=
  checks ← reading readChecks;
  let checks := filter (λ check, check_vehicleId check = filter_vehicleId filters) checks in
  let checks :=
    match filter_hasIssue filters with
    | Some hasIssue => filter (λ check, check_hasIssue check = hasIssue) checks
    | None => checks
    end in
  mret (sort newest_first checks).

End getChecks.

(** ** Vocabulary of the statements *)

(** What a read of the checks file yields: its content, or nothing when it
    cannot be read. *)
Definition stored (w : World) : list Check := default [] (checks_file w).

(** A data directory in which neither file can be read and the checks file
    cannot be written. *)
Definition unreadable : World :=
  {| vehicles_file := None; checks_file := None;
     write_fault := true; write_calls := 0 |}.

(** Every [createdAt] of the collection is a date [new Date] can read. *)
Definition dated (Date_getTime : string → option Z) (l : list Check) : Prop :=
  Forall (λ c, is_Some (Date_getTime (check_createdAt c))) l.

(** [a.createdAt >= b.createdAt], as instants. *)
Definition not_older (Date_getTime : string → option Z) (a b : Check) : Prop :=
  ∃ ta tb, Date_getTime (check_createdAt a) = Some ta ∧
           Date_getTime (check_createdAt b) = Some tb ∧ (tb ≤ ta)%Z.

(** The optional [hasIssue] narrowing of [getChecks]. *)
Definition narrow (filters : CheckFilters) (l : list Check) : list Check :=
  match filter_hasIssue filters with
  | Some hasIssue => filter (λ check, check_hasIssue check = hasIssue) l
  | None => l
  end.

(** A check passes the filters: its vehicle is the requested one and, when
    a [hasIssue] filter is given, its flag equals it. *)
Definition matches (filters : CheckFilters) (c : Check) : Prop :=
  check_vehicleId c = filter_vehicleId filters ∧
  match filter_hasIssue filters with
  | Some hasIssue => check_hasIssue c = hasIssue
  | None => True
  end.

Global Instance matches_dec filters c : Decision (matches filters c).
Proof. unfold matches. destruct (filter_hasIssue filters); apply _. Defined.

(** [v == null] in the loose sense: [undefined] or [null]. *)
Definition nullish (v : value) : bool := is_undefined v || is_null v.

(** [v.k] where it does not throw. *)
Definition field_of (v : value) (k : string) : value :=
  match get v k with
  | Ok x => x
  | Throw _ => VUndefined
  end.

(** The validator reads properties of the body and of every element of
    [body.items]; none of them may be [undefined] or [null]. *)
Definition dereferenceable (body : value) : bool :=
  negb (nullish body) &&
  match field_of body "items" with
  | VArr elems => forallb (λ item, negb (nullish item)) elems
  | _ => true
  end.

Definition known_vehicle (w : World) (id : string) : bool :=
  existsb (λ v, String.eqb (vehicle_id v) id) (default [] (vehicles_file w)).

(** *** The errors of each rule, as lists *)

Definition vehicleId_errors (w : World) (v : value) : list ValidationError :=
  if negb (truthy v) then [error "vehicleId" "is required"]
  else match v with
       | VStr id =>
           if known_vehicle w id then []
           else [error "vehicleId" "vehicle does not exist"]
       | _ => [error "vehicleId" "must be a string"]
       end.

Definition odometerKm_errors (v : value) : list ValidationError :=
  match v with
  | VUndefined | VNull => [error "odometerKm" "is required"]
  | VNum n => if number_le_zero n then [error "odometerKm" "must be > 0"] else []
  | _ => [error "odometerKm" "must be a number"]
  end.

Definition key_field (index : nat) : string := "items[" +:+ pretty index +:+ "].key".
Definition status_field (index : nat) : string := "items[" +:+ pretty index +:+ "].status".

Definition key_errors (index : nat) (k : value) : list ValidationError :=
  if negb (truthy k) then [error (key_field index) "is required"]
  else if negb (includes VALID_KEYS k) then
    [error (key_field index) ("must be one of: " +:+ join ", " VALID_KEYS)]
  else [].

Definition status_errors (index : nat) (st : value) : list ValidationError :=
  if negb (truthy st) then [error (status_field index) "is required"]
  else if negb (includes VALID_STATUSES st) then
    [error (status_field index) ("must be one of: " +:+ join ", " VALID_STATUSES)]
  else [].

(** The key of the item is one that the loop adds to [keys]. *)
Definition counted (item : value) : bool :=
  truthy (field_of item "key") && includes VALID_KEYS (field_of item "key").

Definition item_errors (index : nat) (item : value) : list ValidationError :=
  key_errors index (field_of item "key") ++ status_errors index (field_of item "status").

Fixpoint items_errors_from (index : nat) (elems : list value) : list ValidationError :=
  match elems with
  | [] => []
  | item :: rest => item_errors index item ++ items_errors_from (S index) rest
  end.

(** [keys] when the loop is over. *)
Fixpoint collected (elems : list value) (keys : gset string) : gset string :=
  match elems with
  | [] => keys
  | item :: rest =>
      collected rest (if counted item then keys_add (field_of item "key") keys else keys)
  end.

Definition missing_errors (required : list string) (keys : gset string)
  : list ValidationError :=
  (λ k, error "items" ("missing required key: " +:+ k)) <$>
  filter (λ k, k ∉ keys) required.

Definition duplicates_error : ValidationError :=
  error "items" "must contain all 5 keys exactly once (no duplicates)".

Definition items_errors (v : value) : list ValidationError :=
  if negb (truthy v) then [error "items" "is required"]
  else match v with
       | VArr elems =>
           let keys := collected elems ∅ in
           (if negb (length elems =? 5)
            then [error "items" "must contain exactly 5 items"] else []) ++
           items_errors_from 0 elems ++
           (if (length elems =? 5) && negb (size keys =? 5)
            then [duplicates_error] else []) ++
           missing_errors VALID_KEYS keys
       | _ => [error "items" "must be an array"]
       end.

Definition note_errors (v : value) : list ValidationError :=
  match v with
  | VUndefined | VNull => []
  | VStr s => if 300 <? String.length s then [error "note" "must be <= 300 characters"] else []
  | _ => [error "note" "must be a string"]
  end.

Definition expected_errors (w : World) (body : value) : list ValidationError :=
  vehicleId_errors w (field_of body "vehicleId") ++
  odometerKm_errors (field_of body "odometerKm") ++
  items_errors (field_of body "items") ++
  note_errors (field_of body "note").

(** *** Field paths *)

(** The fields that are not positions in [items]. *)
Definition plain_field (f : string) : Prop :=
  f = "vehicleId" ∨ f = "odometerKm" ∨ f = "items" ∨ f = "note".

Fixpoint last_char (s : string) : option Ascii.ascii :=
  match s with
  | "" => None
  | String a "" => Some a
  | String _ rest => last_char rest
  end.

(** *** Valid requests *)

(** An item with a key of the enumeration and a status of [OK], [FAIL]. *)
Definition valid_item (item : value) : bool :=
  counted item &&
  truthy (field_of item "status") && includes VALID_STATUSES (field_of item "status").

(** Every key of the enumeration is the key of some item. *)
Definition covers_all_keys (elems : list value) : bool :=
  forallb (λ k, existsb (λ item, str_strict_eq k (field_of item "key")) elems)
          VALID_KEYS.

(** The payload meets the rules for [vehicleId], [odometerKm] and [items]:
    the id of a known vehicle, a positive reading, five valid items that
    cover the five keys.  Nothing is asked of [note]. *)
Definition valid_request (w : World) (body : value) : bool :=
  match get body "vehicleId", get body "odometerKm", get body "items" with
  | Ok (VStr id), Ok (VNum (Finite q)), Ok (VArr elems) =>
      negb (String.eqb id "") && known_vehicle w id &&
      negb (Qle_bool q 0) &&
      (length elems =? 5) && forallb valid_item elems && covers_all_keys elems
  | _, _, _ => false
  end.

(** ** The data of the test suite *)

Definition mockCheckItems : list CheckItem :=
  [ {| key := "TYRES"; status := "OK" |}; {| key := "BRAKES"; status := "OK" |};
    {| key := "LIGHTS"; status := "OK" |}; {| key := "OIL"; status := "OK" |};
    {| key := "COOLANT"; status := "OK" |} ].

Definition failingItems : list CheckItem :=
  [ {| key := "TYRES"; status := "OK" |}; {| key := "BRAKES"; status := "FAIL" |};
    {| key := "LIGHTS"; status := "OK" |}; {| key := "OIL"; status := "OK" |};
    {| key := "COOLANT"; status := "OK" |} ].

Definition CHK001 : Check :=
  {| check_id := "CHK001"; check_vehicleId := "VH001";
     check_odometerKm := Finite (inject_Z 15420); check_items := mockCheckItems;
     check_note := Some (VStr "All systems nominal"); check_hasIssue := false;
     check_createdAt := "2026-01-20T08:30:00.000Z" |}.

Definition CHK002 : Check :=
  {| check_id := "CHK002"; check_vehicleId := "VH001";
     check_odometerKm := Finite (inject_Z 16500); check_items := failingItems;
     check_note := None; check_hasIssue := true;
     check_createdAt := "2026-01-25T10:15:00.000Z" |}.

Definition VH001 : Vehicle :=
  {| vehicle_id := "VH001"; registration := "ABC123"; make := "Toyota";
     model := "Hilux"; year := Finite (inject_Z 2022) |}.

(** A data directory with one vehicle and the two checks, oldest first. *)
Definition mockWorld : World :=
  {| vehicles_file := Some [VH001]; checks_file := Some [CHK001; CHK002];
     write_fault := false; write_calls := 0 |}.

(** [Date.getTime] on the timestamps of the test suite. *)
Definition mock_getTime (s : string) : option Z :=
  if String.eqb s "2026-01-20T08:30:00.000Z" then Some 1768897800000%Z
  else if String.eqb s "2026-01-25T10:15:00.000Z" then Some 1769336100000%Z
  else if String.eqb s "2026-01-27T10:00:00.000Z" then Some 1769508000000%Z
  else None.

(** A caller's object that also carries a [hasIssue] of its own. *)
Definition failingData : CreateCheckData :=
  {| vehicleId := "VH001"; odometerKm := Finite (inject_Z 15000);
     items := failingItems; note := VUndefined;
     excess := [("hasIssue", VBool false)] |}.

Definition notedData : CreateCheckData :=
  {| vehicleId := "VH001"; odometerKm := Finite (inject_Z 15000);
     items := mockCheckItems; note := VStr "All good"; excess := [] |}.

Definition item_value (k s : string) : value :=
  VObj [("key", VStr k); ("status", VStr s)].

Definition items_value : value :=
  VArr [item_value "TYRES" "OK"; item_value "BRAKES" "OK"; item_value "LIGHTS" "OK";
        item_value "OIL" "OK"; item_value "COOLANT" "OK"].

Definition validBody : value :=
  VObj [("vehicleId", VStr "VH001"); ("odometerKm", VNum (Finite (inject_Z 15000)));
        ("items", items_value); ("note", VStr "All systems operational")].

(** [{ ...body, k: v }]. *)
Definition with_prop (k : string) (v : value) (body : value) : value :=
  match body with
  | VObj props => VObj ((k, v) :: props)
  | _ => body
  end.

(** Five distinct keys, one of them not in the enumeration. *)
Definition foreign_items : list value :=
  [item_value "TYRES" "OK"; item_value "BRAKES" "OK"; item_value "LIGHTS" "OK";
   item_value "OIL" "OK"; item_value "WIPERS" "OK"].

(** * The rest of the backend and its callers *)

(** ** services/vehicleService.ts *)

Definition getAllVehicles (w : World) : result (list Vehicle) := readVehicles w.

Definition checkVehicleExists (w : World) (vehicleId : string) : result bool :=
  vehicleExists w vehicleId.

Definition getVehicleById (w : World) (vehicleId : string) : result (option Vehicle) :=
  match readVehicles w with
  | Ok vehicles => Ok (find (λ v, String.eqb (vehicle_id v) vehicleId) vehicles)
  | Throw e => Throw e
  end.

(** ** Responses *)

Record ErrorResponse : Type := {
  code : string;
  message : string;
  details : list ValidationError;
}.

(** What a handler hands to [res.json]: a check, a list of checks or of
    vehicles, [{ error: { code, message, details } }], or the
    [{ error: { message } }] of the create handler's own catch. *)
Inductive Json : Type :=
| JCheck (c : Check)
| JChecks (l : list Check)
| JVehicles (l : list Vehicle)
| JError (e : ErrorResponse)
| JErrorMessage (m : string).

(** [sent] is [None] for [res.send()] without a body. *)
Record Response : Type := {
  statusCode : nat;
  sent : option Json;
}.

(** [res.status(n).json(j)]; [res.json(j)] is [json 200 j]. *)
Definition json (n : nat) (j : Json) : Response :=
  {| statusCode := n; sent := Some j |}.

(** [try { ... } catch (err) { ... }] around a service call. *)
Definition try_service {A} (body : Service A) (handler : exn → Service A) : Service A :=
  λ w,
    match body w with
    | (Ok a, w') => (Ok a, w')
    | (Throw err, w') => handler err w'
    end.

Definition throw {A} (e : exn) : Service A := λ w, (Throw e, w).

(** *** The request body as the service reads it

    The create handler passes [req.body] on to [checkService.createCheck]
    as it came.  [as_CreateCheckData] is the view of that object through
    the interface: the four properties the service reads, and the other
    properties of the body as [excess].  Of an item the properties [key]
    and [status] are kept, which are the ones [CheckItem] has.  A body
    without that shape does not get past the validator
    ([validated_body_has_shape] below); in the model the call raises. *)
Definition as_CheckItem (item : value) : option CheckItem :=
  match get item "key", get item "status" with
  | Ok (VStr k), Ok (VStr s) => Some {| key := k; status := s |}
  | _, _ => None
  end.

Definition interface_props : list string :=
  ["vehicleId"; "odometerKm"; "items"; "note"].

Definition as_CreateCheckData (body : value) : option CreateCheckData :=
  match body with
  | VObj props =>
      match own_prop "vehicleId" props, own_prop "odometerKm" props,
            own_prop "items" props with
      | VStr id, VNum km, VArr elems =>
          its ← mapM as_CheckItem elems;
          Some {| vehicleId := id; odometerKm := km; items := its;
                  note := own_prop "note" props;
                  excess := filter (λ p, p.1 ∉ interface_props) props |}
      | _, _, _ => None
      end
  | _ => None
  end.

Definition createCheck_of_body (uuid now : string) (body : value) : Service Check :=
  match as_CreateCheckData body with
  | Some checkData => createCheck uuid now checkData
  | None => throw TypeError
  end.

(** ** controllers/vehicleController.ts *)

Module vehicleController.

Definition getAllVehicles : Service Response :=
  vehicles ← reading getAllVehicles;
  mret (json 200 (JVehicles vehicles)).

End vehicleController.

(** ** controllers/checkController.ts *)

Module checkController.

(** [POST /checks], with [req.body]. *)
Definition createCheck (uuid now : string) (body : value) : Service Response :=
  try_service
    (errors ← reading (λ w, validateCheckRequest w body);
     if 0 <? length errors then
       mret (json 400 (JError {| code := "VALIDATION_ERROR";
                                 message := "We got Invalid Req Body";
                                 details := errors |}))
     else
       checkSer ← createCheck_of_body uuid now body;
       mret (json 201 (JCheck checkSer)))
    (λ err, mret (json 500 (JErrorMessage "Internal Server Error"))).

(** [GET /checks], with [req.query.vehicleId] and [req.query.hasIssue].
    The guard [!vehicleId || typeof vehicleId !== "string"] is the first
    two branches: a value that is not a string, or a falsy string. *)
Definition getChecks (Date_getTime : string → option Z) (vehicleId hasIssue : value)
  : Service Response :=
  let invalid :=
    json 400 (JError {| code := "VALIDATION_ERROR"; message := "Invalid request";
                        details := [error "vehicleId" "is required"] |}) in
  match vehicleId with
  | VStr v =>
      if negb (truthy vehicleId) then mret invalid
      else
        let filters :=
          if negb (is_undefined hasIssue)
          then {| filter_vehicleId := v;
                  filter_hasIssue := Some (str_strict_eq "true" hasIssue) |}
          else {| filter_vehicleId := v; filter_hasIssue := None |} in
        checks ← getChecks Date_getTime filters;
        mret (json 200 (JChecks checks))
  | _ => mret invalid
  end.

(** [DELETE /checks/:id], with [req.params.id]; the guard
    [!id || typeof id !== "string"] as in [getChecks]. *)
Definition deleteCheck (id : value) : Service Response :=
  let invalid :=
    json 400 (JError {| code := "VALIDATION_ERROR"; message := "Invalid request";
                        details := [error "id" "is required"] |}) in
  match id with
  | VStr i =>
      if negb (truthy id) then mret invalid
      else
        deleted ← deleteCheck i;
        if negb deleted then
          mret (json 404 (JError {| code := "NOT_FOUND"; message := "Check not found";
                                    details := [] |}))
        else mret {| statusCode := 204; sent := None |}
  | _ => mret invalid
  end.

End checkController.

(** ** middleware/errorHandler.ts *)

Section errorHandler.

(** [err.message]. *)
Variable Error_message : exn → string.

Definition errorHandler (err : exn) : Response :=
  json 500 (JError {| code := "INTERNAL_SERVER_ERROR";
                      message := if String.eqb (Error_message err) ""
                                 then "An unexpected error occurred"
                                 else Error_message err;
                      details := [] |}).

(** The application: an exception that leaves a route handler is given to
    the error middleware, which is registered last. *)
Definition app (handler : Service Response) (w : World) : Response * World :=
  match handler w with
  | (Ok res, w') => (res, w')
  | (Throw err, w') => (errorHandler err, w')
  end.

End errorHandler.

(** ** frontend/src/CheckForm.tsx *)

Definition CHECK_ITEMS : list string :=
  ["TYRES"; "BRAKES"; "LIGHTS"; "OIL"; "COOLANT"].

Definition MAX_NOTE_LENGTH : nat := 300.

(** The initial state of [items]. *)
Definition form_items : list CheckItem :=
  (λ k, {| key := k; status := "OK" |}) <$> CHECK_ITEMS.

(** The updater that [handleItemStatusChange(key, status)] gives to
    [setItems]. *)
Definition handleItemStatusChange (k st : string) (prev : list CheckItem)
  : list CheckItem :=
  (λ item, if String.eqb (key item) k
           then {| key := key item; status := st |} else item) <$> prev.

(** [JSON.stringify] of a number: [NaN] and the infinities become
    [null]. *)
Definition json_number (n : number) : value :=
  match n with
  | Finite q => VNum (Finite q)
  | NaN | Infinity _ => VNull
  end.

Definition item_json (item : CheckItem) : value :=
  item_value (key item) (status item).

(** The body that [handleSubmit] posts, as the server parses it;
    [km] is [parseFloat(odometerKm)]. *)
Definition submitted_body (selectedVehicle : string) (km : number)
    (its : list CheckItem) (note_text : string) : value :=
  VObj [("vehicleId", VStr selectedVehicle); ("odometerKm", json_number km);
        ("items", VArr (item_json <$> its)); ("note", VStr note_text)].

(** ** frontend/src/useToast.ts *)

Inductive ToastType : Type := toast_success | toast_error.

Record ToastData : Type := {
  toast_id : nat;
  toast_message : string;
  toast_type : ToastType;
}.

(** The module-level [toastIdCounter] and the [toasts] state. *)
Record ToastState : Type := {
  toastIdCounter : nat;
  toasts : list ToastData;
}.

Definition showToast (m : string) (type : ToastType) (s : ToastState) : ToastState :=
  let id := S (toastIdCounter s) in
  {| toastIdCounter := id;
     toasts := toasts s ++ [ {| toast_id := id; toast_message := m; toast_type := type |} ] |}.

Definition dismissToast (id : nat) (s : ToastState) : ToastState :=
  {| toastIdCounter := toastIdCounter s;
     toasts := filter (λ toast, toast_id toast ≠ id) (toasts s) |}.

Inductive ToastEvent : Type :=
| Shown (m : string) (type : ToastType)
| Dismissed (id : nat).

Definition toast_step (s : ToastState) (ev : ToastEvent) : ToastState :=
  match ev with
  | Shown m type => showToast m type s
  | Dismissed id => dismissToast id s
  end.

Definition no_toasts : ToastState := {| toastIdCounter := 0; toasts := [] |}.

(** ** frontend/src/CheckHistory.tsx and the [getChecks] of the api client *)

(** [hasIssueFilter === "all" ? undefined : hasIssueFilter === "true"]. *)
Definition hasIssueParam (hasIssueFilter : string) : option bool :=
  if String.eqb hasIssueFilter "all" then None
  else Some (String.eqb hasIssueFilter "true").

(** [String(b)]. *)
Definition String_of_bool (b : bool) : string := if b then "true" else "false".

(** The query of [api.getChecks(vehicleId, hasIssue)] as the server's
    [req.query] has it: [vehicleId], and [hasIssue] when it is defined. *)
Definition api_getChecks_query (v : string) (hasIssue : option bool) : value * value :=
  (VStr v,
   match hasIssue with
   | Some b => VStr (String_of_bool b)
   | None => VUndefined
   end).

(** ** What the validator lets through *)

(** Said of the payload: [vehicleId] is a non-empty string, the id of a
    vehicle on file; [odometerKm] is a number that is not [<= 0];
    [items] is an array whose items have for keys, in some order, the five
    keys of the enumeration once each, and for status [OK] or [FAIL];
    [note] is absent, [null], or a string of at most 300 characters. *)
Definition Accepted (w : World) (body : value) : Prop :=
  (∃ id, get body "vehicleId" = Ok (VStr id) ∧ id ≠ "" ∧
         ∃ v, v ∈ default [] (vehicles_file w) ∧ vehicle_id v = id) ∧
  (∃ n, get body "odometerKm" = Ok (VNum n) ∧ number_le_zero n = false) ∧
  (∃ elems ks,
     get body "items" = Ok (VArr elems) ∧
     Forall2 (λ item k, get item "key" = Ok (VStr k)) elems ks ∧
     ks ≡ₚ VALID_KEYS ∧
     Forall (λ item, ∃ st, get item "status" = Ok (VStr st) ∧ st ∈ VALID_STATUSES)
            elems) ∧
  (get body "note" = Ok VUndefined ∨ get body "note" = Ok VNull ∨
   ∃ text, get body "note" = Ok (VStr text) ∧ String.length text ≤ 300).

(** The key of an item, when it is a string. *)
Definition key_string (item : value) : string :=
  match field_of item "key" with
  | VStr k => k
  | _ => ""
  end.

(** A note of [n] characters. *)
Fixpoint note_of_length (n : nat) : string :=
  match n with
  | 0 => ""
  | S m => "a" +:+ note_of_length m
  end.

(** The rule an error comes from, by its field. *)
Inductive origin (w : World) (body : value) (e : ValidationError) : Prop :=
| from_vehicleId :
    field e = "vehicleId" → e ∈ vehicleId_errors w (field_of body "vehicleId") →
    origin w body e
| from_odometerKm :
    field e = "odometerKm" → e ∈ odometerKm_errors (field_of body "odometerKm") →
    origin w body e
| from_note :
    field e = "note" → e ∈ note_errors (field_of body "note") → origin w body e
| from_items : field e = "items" → origin w body e
| from_key elems j item :
    field_of body "items" = VArr elems → elems !! j = Some item →
    field e = key_field j → e ∈ key_errors j (field_of item "key") →
    origin w body e
| from_status elems j item :
    field_of body "items" = VArr elems → elems !! j = Some item →
    field e = status_field j → e ∈ status_errors j (field_of item "status") →
    origin w body e.

(** The status of an item, when it is a string. *)
Definition status_string (item : value) : string :=
  match field_of item "status" with
  | VStr st => st
  | _ => ""
  end.

(** The [items] of the form after a run of radio-button changes, each a
    key and the status chosen for it. *)
Definition form_after (changes : list (string * string)) : list CheckItem :=
  foldl (λ its change, handleItemStatusChange change.1 change.2 its) form_items changes.

(** The toasts after a run of [showToast] and [dismissToast] calls. *)
Definition toasts_after (events : list ToastEvent) : ToastState :=
  foldl toast_step no_toasts events.

(** ** Further sample data *)

(** A check made in the same millisecond as [CHK001], stored after it. *)
Definition CHK003 : Check :=
  {| check_id := "CHK003"; check_vehicleId := "VH001";
     check_odometerKm := Finite (inject_Z 15421); check_items := failingItems;
     check_note := None; check_hasIssue := true;
     check_createdAt := "2026-01-20T08:30:00.000Z" |}.

Definition tieWorld : World :=
  {| vehicles_file := Some [VH001]; checks_file := Some [CHK001; CHK002; CHK003];
     write_fault := false; write_calls := 0 |}.

(** The checks file cannot be read, and can be written. *)
Definition corruptWorld : World :=
  {| vehicles_file := Some [VH001]; checks_file := None;
     write_fault := false; write_calls := 0 |}.

(** The checks file can be read, not written. *)
Definition readOnlyWorld : World :=
  {| vehicles_file := Some [VH001]; checks_file := Some [CHK001; CHK002];
     write_fault := true; write_calls := 0 |}.

(** Five items with [TYRES] twice and no [BRAKES]. *)
Definition doubledItems : list value :=
  [item_value "TYRES" "OK"; item_value "TYRES" "FAIL"; item_value "LIGHTS" "OK";
   item_value "OIL" "OK"; item_value "COOLANT" "OK"].

Definition doubledBody : value := with_prop "items" (VArr doubledItems) validBody.

(** A body with an empty note and a [hasIssue] of the client's. *)
Definition emptyNoteBody : value :=
  with_prop "hasIssue" (VBool false)
    (with_prop "note" (VStr "")
       (with_prop "items"
          (VArr [item_value "TYRES" "OK"; item_value "BRAKES" "FAIL";
                 item_value "LIGHTS" "OK"; item_value "OIL" "OK";
                 item_value "COOLANT" "OK"]) validBody)).

(** * Properties *)

(** ** The record store *)

Lemma readChecks_stored w : readChecks w = Ok (stored w).
Proof. unfold readChecks, stored. by destruct (checks_file w). Qed.

Lemma readChecks_never_throws w e : readChecks w ≠ Throw e.
Proof. by rewrite readChecks_stored. Qed.

Lemma writeChecks_ok checks w :
  write_fault w = false →
  writeChecks checks w =
    (Ok (), {| vehicles_file := vehicles_file w; checks_file := Some checks;
               write_fault := false; write_calls := S (write_calls w) |}).
Proof. intros Hw. unfold writeChecks, writeFileSync_checks. by rewrite Hw. Qed.

Lemma writeChecks_fault checks w :
  write_fault w = true →
  writeChecks checks w =
    (Throw IOError,
     {| vehicles_file := vehicles_file w; checks_file := checks_file w;
        write_fault := true; write_calls := S (write_calls w) |}).
Proof. intros Hw. unfold writeChecks, writeFileSync_checks. by rewrite Hw. Qed.

(** C3, as stated, fails: a checks file that cannot be read makes
    [readChecks] return the empty collection instead of raising. *)
Lemma readChecks_swallows_read_fault :
  from_file (checks_file unreadable) = Throw IOError ∧
  readChecks unreadable = Ok [].
Proof. split; reflexivity. Qed.

(** C3, amended: a write fault is re-thrown by [writeChecks] and never
    reported as success (a [writeChecks] that returns has replaced the
    stored collection), and a read fault is caught by [readChecks], which
    returns the empty collection and never raises. *)
Theorem storage_fault_handling (w : World) (checks : list Check) :
  (∀ e w', writeFileSync_checks checks w = (Throw e, w') →
           writeChecks checks w = (Throw e, w')) ∧
  (∀ w', writeChecks checks w = (Ok (), w') →
         write_fault w = false ∧ checks_file w' = Some checks) ∧
  (∀ e, from_file (checks_file w) = Throw e → readChecks w = Ok []) ∧
  (∀ e, readChecks w ≠ Throw e).
Proof.
  split_and!.
  - intros e w' Hthrow. unfold writeChecks. by rewrite Hthrow.
  - intros w'. unfold writeChecks, writeFileSync_checks.
    destruct (write_fault w); intros ?; by simplify_eq.
  - intros e He. unfold readChecks. by rewrite He.
  - apply readChecks_never_throws.
Qed.


(** ** createCheck *)

Lemma createCheck_ok uuid now d w :
  write_fault w = false →
  ∃ c,
    createCheck uuid now d w =
      (Ok c, {| vehicles_file := vehicles_file w;
                checks_file := Some (stored w ++ [c]);
                write_fault := false; write_calls := S (write_calls w) |}) ∧
    check_id c = uuid ∧ check_createdAt c = now ∧
    check_vehicleId c = vehicleId d ∧ check_odometerKm c = odometerKm d ∧
    check_items c = items d ∧
    check_hasIssue c = existsb (λ item, String.eqb (status item) "FAIL") (items d) ∧
    check_note c = spread_note (negb (is_undefined (note d))) (note d).
Proof.
  intros Hw. eexists. split.
  - unfold createCheck, mbind, Service_bind, reading, mret, Service_ret.
    rewrite readChecks_stored, (writeChecks_ok _ _ Hw). reflexivity.
  - done.
Qed.

Lemma createCheck_fault uuid now d w :
  write_fault w = true → ∃ w', createCheck uuid now d w = (Throw IOError, w').
Proof.
  intros Hw. eexists.
  unfold createCheck, mbind, Service_bind, reading.
  rewrite readChecks_stored, (writeChecks_fault _ _ Hw). reflexivity.
Qed.

Lemma some_FAIL (l : list CheckItem) :
  existsb (λ item, String.eqb (status item) "FAIL") l = true ↔
  ∃ item, item ∈ l ∧ status item = "FAIL".
Proof.
  rewrite existsb_exists. split.
  - intros (item & Hin & Heq). exists item.
    by rewrite list_elem_of_In, <- String.eqb_eq.
  - intros (item & Hin & Heq). exists item.
    by rewrite <- list_elem_of_In, String.eqb_eq.
Qed.

Lemma createCheck_inv uuid now d w c w' :
  createCheck uuid now d w = (Ok c, w') →
  write_fault w = false ∧ stored w' = stored w ++ [c] ∧
  check_hasIssue c = existsb (λ item, String.eqb (status item) "FAIL") (items d) ∧
  check_note c = spread_note (negb (is_undefined (note d))) (note d).
Proof.
  intros Hrun. destruct (write_fault w) eqn:Hw.
  - destruct (createCheck_fault uuid now d w Hw) as (w3 & Hthrow). congruence.
  - destruct (createCheck_ok uuid now d w Hw)
      as (c3 & Hrun3 & _ & _ & _ & _ & _ & Hflag & Hnote).
    rewrite Hrun in Hrun3. by injection Hrun3 as -> ->.
Qed.

(** C1: the check that [createCheck] returns and appends to the store has
    [hasIssue] true exactly when some item has status ["FAIL"], false when
    every status is ["OK"], and the flag is a function of the items alone,
    whatever else the caller's object carries.  It returns whenever the
    store takes the write. *)
Theorem createCheck_hasIssue uuid now (d : CreateCheckData) (w : World) :
  (write_fault w = false → ∃ c w', createCheck uuid now d w = (Ok c, w')) ∧
  (∀ c w',
     createCheck uuid now d w = (Ok c, w') →
     stored w' = stored w ++ [c] ∧
     (check_hasIssue c = true ↔ ∃ item, item ∈ items d ∧ status item = "FAIL") ∧
     (Forall (λ item, status item = "OK") (items d) → check_hasIssue c = false) ∧
     (∀ uuid2 now2 d2 w2 c2 w2',
        items d2 = items d →
        createCheck uuid2 now2 d2 w2 = (Ok c2, w2') →
        check_hasIssue c2 = check_hasIssue c)).
Proof.
  split.
  - intros Hw. destruct (createCheck_ok uuid now d w Hw) as (c & Hrun & _). eauto.
  - intros c w' (_ & Hstored & Hflag & _)%createCheck_inv. split_and!.
    + done.
    + rewrite Hflag. apply some_FAIL.
    + intros Hall. apply not_true_is_false. rewrite Hflag, some_FAIL.
      intros (item & Hin & Hfail).
      rewrite Forall_forall in Hall. specialize (Hall _ Hin). congruence.
    + intros uuid2 now2 d2 w2 c2 w2' Hitems (_ & _ & Hflag2 & _)%createCheck_inv.
      congruence.
Qed.

(** C2: without a note the created and stored check has no [note]
    property at all; a note string that is supplied is kept as it is.
    [createCheck] returns whenever the store takes the write. *)
Theorem createCheck_note uuid now (d : CreateCheckData) (w : World) :
  (write_fault w = false → ∃ c w', createCheck uuid now d w = (Ok c, w')) ∧
  (∀ c w',
     createCheck uuid now d w = (Ok c, w') →
     stored w' = stored w ++ [c] ∧
     (note d = VUndefined → check_note c = None) ∧
     (∀ s, note d = VStr s → check_note c = Some (VStr s))).
Proof.
  split.
  - intros Hw. destruct (createCheck_ok uuid now d w Hw) as (c & Hrun & _). eauto.
  - intros c w' (_ & Hstored & _ & Hnote)%createCheck_inv. split_and!.
    + done.
    + intros Hd. by rewrite Hnote, Hd.
    + intros s Hd. by rewrite Hnote, Hd.
Qed.

(** ** getChecks *)

Lemma sort_cons (f : Check → Check → option Z) x l :
  sort f (x :: l) = sort_insert f x (sort f l).
Proof. reflexivity. Qed.

Lemma sort_insert_perm (f : Check → Check → option Z) x l :
  sort_insert f x l ≡ₚ x :: l.
Proof.
  induction l as [|y l IH]; simpl; [done|].
  destruct (sorts_after f x y); [|done].
  rewrite IH. apply Permutation_swap.
Qed.

Lemma sort_perm (f : Check → Check → option Z) l : sort f l ≡ₚ l.
Proof.
  induction l as [|x l IH]; [done|].
  by rewrite sort_cons, sort_insert_perm, IH.
Qed.

Lemma narrow_matches filters (l : list Check) :
  narrow filters (filter (λ c, check_vehicleId c = filter_vehicleId filters) l) =
  filter (matches filters) l.
Proof.
  destruct filters as [vid [b|]]; unfold narrow; simpl.
  - rewrite list_filter_filter. apply list_filter_iff.
    unfold matches; simpl. tauto.
  - apply list_filter_iff. unfold matches; simpl. tauto.
Qed.

Lemma StronglySorted_lookup (R : relation Check) l i j a b :
  StronglySorted R l → i < j → l !! i = Some a → l !! j = Some b → R a b.
Proof.
  intros Hs. revert i j.
  induction Hs as [|x l Hs IH Hx]; intros i j Hij Hi Hj; [done|].
  destruct j as [|j]; [lia|]. destruct i as [|i]; simplify_eq/=.
  - rewrite Forall_forall in Hx. apply Hx.
    rewrite list_elem_of_lookup. by exists j.
  - apply (IH i j); [lia|done..].
Qed.

Section getChecks_properties.

Variable Date_getTime : string → option Z.

Local Abbreviation time c := (Date_getTime (check_createdAt c)).
Local Abbreviation cmp := (newest_first Date_getTime).




Lemma sorts_after_dated x y tx ty :
  time x = Some tx → time y = Some ty →
  sorts_after cmp x y = bool_decide (tx < ty)%Z.
Proof.
  intros Hx Hy. unfold sorts_after, newest_first. rewrite Hx, Hy.
  destruct (Z.ltb_spec 0 (ty - tx)); [rewrite bool_decide_true|rewrite bool_decide_false];
    (done || lia).
Qed.

Lemma not_older_trans : Transitive (not_older Date_getTime).
Proof.
  intros a b c (ta & tb & Ha & Hb & Hab) (tb' & tc & Hb' & Hc & Hbc).
  exists ta, tc. split_and!; [done..|]. simplify_eq. lia.
Qed.

Lemma sort_insert_head x l :
  (∀ y, head l = Some y → sorts_after cmp x y = false) →
  sort_insert cmp x l = x :: l.
Proof.
  destruct l as [|y l]; simpl; [done|].
  intros Hhead. by rewrite (Hhead y).
Qed.

Lemma sort_insert_sorted x l :
  dated Date_getTime (x :: l) →
  StronglySorted (not_older Date_getTime) l →
  StronglySorted (not_older Date_getTime) (sort_insert cmp x l).
Proof.
  intros Hd Hs. induction Hs as [|y l Hs IH Hy]; simpl.
  - repeat constructor.
  - apply Forall_cons in Hd as [[tx Hx] Hd].
    pose proof Hd as [[ty Hty] Hdl]%Forall_cons.
    rewrite (sorts_after_dated x y tx ty) by done.
    case_bool_decide as Hlt.
    + assert (Hperm := sort_insert_perm cmp x l).
      constructor.
      * apply IH. by constructor.
      * rewrite Hperm. constructor; [|done].
        exists ty, tx. split_and!; [done..|lia].
    + assert (not_older Date_getTime x y) as Hxy
        by (exists tx, ty; split_and!; [done..|lia]).
      constructor; [by constructor|].
      constructor; [done|].
      eapply Forall_impl; [exact Hy|].
      intros z Hyz. by eapply not_older_trans.
Qed.

Lemma sort_dated l : dated Date_getTime l → dated Date_getTime (sort cmp l).
Proof. unfold dated. by rewrite sort_perm. Qed.

Lemma sort_sorted l :
  dated Date_getTime l → StronglySorted (not_older Date_getTime) (sort cmp l).
Proof.
  induction l as [|x l IH]; intros Hd; [constructor|].
  apply Forall_cons in Hd as [Hx Hd]. rewrite sort_cons.
  apply sort_insert_sorted; [|by apply IH].
  constructor; [done|]. by apply sort_dated.
Qed.

(** A stable sort commutes with filtering. *)
Lemma filter_sort_insert (P : Check → Prop) `{!∀ c, Decision (P c)} x l :
  dated Date_getTime (x :: l) →
  StronglySorted (not_older Date_getTime) l →
  filter P (sort_insert cmp x l) =
    if decide (P x) then sort_insert cmp x (filter P l) else filter P l.
Proof.
  intros Hd Hs. induction Hs as [|y l Hs IH Hy]; simpl.
  - rewrite filter_cons, filter_nil. by destruct (decide (P x)).
  - apply Forall_cons in Hd as [[tx Hx] Hd].
    pose proof Hd as [[ty Hty] Hdl]%Forall_cons.
    destruct (sorts_after cmp x y) eqn:Hafter.
    + rewrite !(filter_cons _ y), IH by (by constructor; [exists tx|]).
      destruct (decide (P x)), (decide (P y)); simpl; by rewrite ?Hafter.
    + rewrite (sorts_after_dated x y tx ty) in Hafter by done.
      apply bool_decide_eq_false in Hafter.
      rewrite (filter_cons _ x). destruct (decide (P x)); [|done].
      symmetry. apply sort_insert_head. intros z Hz.
      assert (z ∈ filter P (y :: l)) as [_ Hin]%list_elem_of_filter
        by (destruct (filter P (y :: l)); simplify_eq/=; left).
      assert (not_older Date_getTime y z ∨ z = y) as Hyz.
      { apply elem_of_cons in Hin as [->|Hin]; [by right|left].
        rewrite Forall_forall in Hy. by apply Hy. }
      destruct Hyz as [(ty' & tz & Hty' & Htz & Hle)| ->].
      * rewrite (sorts_after_dated x z tx tz) by done.
        simplify_eq. apply bool_decide_eq_false. lia.
      * rewrite (sorts_after_dated x y tx ty) by done.
        by apply bool_decide_eq_false.
Qed.

Lemma filter_sort (P : Check → Prop) `{!∀ c, Decision (P c)} l :
  dated Date_getTime l →
  filter P (sort cmp l) = sort cmp (filter P l).
Proof.
  induction l as [|x l IH]; intros Hd; [done|].
  apply Forall_cons in Hd as [Hx Hd].
  rewrite sort_cons, filter_sort_insert.
  - rewrite filter_cons, IH by done.
    by destruct (decide (P x)).
  - constructor; [done|]. by apply sort_dated.
  - by apply sort_sorted.
Qed.

Lemma getChecks_eq filters w :
  getChecks Date_getTime filters w =
    (Ok (sort cmp (narrow filters
                     (filter (λ c, check_vehicleId c = filter_vehicleId filters)
                             (stored w)))), w).
Proof.
  unfold getChecks, mbind, Service_bind, reading, mret, Service_ret.
  by rewrite readChecks_stored.
Qed.



(** C7: [getChecks] never raises and leaves the store as it is; what it
    returns is a rearrangement of the stored checks that pass the
    filters, empty when none does, and when the returned checks carry
    readable dates any check listed before another is not older. *)
Theorem getChecks_selection_sorted (filters : CheckFilters) (w : World) :
  ∃ l,
    getChecks Date_getTime filters w = (Ok l, w) ∧
    l ≡ₚ filter (matches filters) (stored w) ∧
    ((∀ c, c ∈ stored w → ¬ matches filters c) → l = []) ∧
    (dated Date_getTime l →
     ∀ i j a b, i < j → l !! i = Some a → l !! j = Some b →
                not_older Date_getTime a b).
Proof.
  eexists. split; [apply getChecks_eq|]. rewrite narrow_matches.
  split_and!.
  - apply sort_perm.
  - intros Hnone. apply Permutation_nil_r. rewrite sort_perm.
    induction (stored w) as [|c l IH]; [done|].
    rewrite filter_cons_False by (apply Hnone; left).
    apply IH. intros c' Hc'. apply Hnone. by right.
  - intros Hd i j a b. apply StronglySorted_lookup.
    unfold dated in Hd. rewrite sort_perm in Hd. by apply sort_sorted.
Qed.

(** C6: for one vehicle, the [hasIssue: true] query returns the checks of
    the unfiltered query whose flag is true, the [hasIssue: false] query
    the ones whose flag is false, and the two together make up the
    unfiltered result; with readable dates the two are the unfiltered
    result with the other flag struck out, in the same order. *)
Theorem getChecks_hasIssue_partition (V : string) (w : World) :
  ∃ all yes no,
    getChecks Date_getTime {| filter_vehicleId := V; filter_hasIssue := None |} w
      = (Ok all, w) ∧
    getChecks Date_getTime {| filter_vehicleId := V; filter_hasIssue := Some true |} w
      = (Ok yes, w) ∧
    getChecks Date_getTime {| filter_vehicleId := V; filter_hasIssue := Some false |} w
      = (Ok no, w) ∧
    yes ≡ₚ filter (λ c, check_hasIssue c = true) all ∧
    no ≡ₚ filter (λ c, check_hasIssue c = false) all ∧
    yes ++ no ≡ₚ all ∧
    (dated Date_getTime all →
     yes = filter (λ c, check_hasIssue c = true) all ∧
     no = filter (λ c, check_hasIssue c = false) all).
Proof.
  do 3 eexists. rewrite !getChecks_eq. unfold narrow; simpl.
  split_and!; [done..| | | |].
  - by rewrite !sort_perm.
  - by rewrite !sort_perm.
  - rewrite !sort_perm.
    rewrite <- (filter_app_complement (λ c, check_hasIssue c = true)
                  (filter _ (stored w))) at 3.
    apply Permutation_app; [done|].
    erewrite list_filter_iff; [done|].
    intros c; simpl. by destruct (check_hasIssue c).
  - intros Hd. unfold dated in Hd. rewrite sort_perm in Hd.
    by rewrite !filter_sort.
Qed.

End getChecks_properties.

(** ** deleteCheck *)

Lemma deleteCheck_eq id w :
  deleteCheck id w =
    let kept := filter (λ c, check_id c ≠ id) (stored w) in
    if length kept =? length (stored w) then (Ok false, w)
    else match writeChecks kept w with
         | (Ok _, w') => (Ok true, w')
         | (Throw e, w') => (Throw e, w')
         end.
Proof.
  unfold deleteCheck, mbind, Service_bind, reading, mret, Service_ret.
  rewrite readChecks_stored. simpl.
  destruct (_ =? _); [done|]. by destruct (writeChecks _ w) as [[[]|e] w'].
Qed.

Lemma filter_keeps_all {A} (P : A → Prop) `{!∀ x, Decision (P x)} (l : list A) :
  length (filter P l) = length l ↔ Forall P l.
Proof.
  split.
  - intros Hlen. apply Forall_forall. intros x Hx.
    destruct (decide (P x)) as [|Hn]; [done|].
    pose proof (length_filter_lt P l x Hx Hn). lia.
  - intros Hall. induction Hall as [|x l Hx Hall IH]; [done|].
    rewrite filter_cons_True by done. simpl. by rewrite IH.
Qed.

(** A delete of an id that is not stored writes nothing, whether or not
    the file could be written. *)
Lemma deleteCheck_absent id w :
  (∀ c, c ∈ stored w → check_id c ≠ id) → deleteCheck id w = (Ok false, w).
Proof.
  intros Habsent. rewrite deleteCheck_eq. simpl.
  apply Forall_forall, (filter_keeps_all (λ c, check_id c ≠ id)) in Habsent.
  rewrite Habsent. by rewrite Nat.eqb_refl.
Qed.

(** C5: [deleteCheck id] returns true exactly when a check with that id
    was stored; then every check with that id is gone and the others are
    kept, no later [getChecks] lists the id, and a second [deleteCheck id]
    returns false; when it returns false the data directory is as before,
    without any call to write it.  It returns whenever the store takes the
    write, and in any case when the id is not stored. *)
Theorem deleteCheck_removes (id : string) (w : World) :
  (write_fault w = false → ∃ removed w', deleteCheck id w = (Ok removed, w')) ∧
  ((∀ c, c ∈ stored w → check_id c ≠ id) → deleteCheck id w = (Ok false, w)) ∧
  (∀ removed w',
     deleteCheck id w = (Ok removed, w') →
     (removed = true ↔ ∃ c, c ∈ stored w ∧ check_id c = id) ∧
     (removed = true →
        stored w' = filter (λ c, check_id c ≠ id) (stored w) ∧
        (∀ Date_getTime filters l w'',
           getChecks Date_getTime filters w' = (Ok l, w'') →
           ∀ c, c ∈ l → check_id c ≠ id) ∧
        deleteCheck id w' = (Ok false, w')) ∧
     (removed = false → w' = w ∧ write_calls w' = write_calls w)).
Proof.
  split_and!.
  - intros Hw. rewrite deleteCheck_eq. simpl.
    destruct (_ =? _); [eauto|]. rewrite (writeChecks_ok _ _ Hw). eauto.
  - apply deleteCheck_absent.
  - intros removed w'. rewrite deleteCheck_eq. simpl.
    destruct (Nat.eqb_spec (length (filter (λ c, check_id c ≠ id) (stored w)))
                           (length (stored w))) as [Hlen|Hlen].
    + apply (filter_keeps_all (λ c, check_id c ≠ id)) in Hlen.
      rewrite Forall_forall in Hlen.
      intros [= <- <-]. split_and!; [|done..].
      split; [done|]. intros (c & Hc & Hid). by destruct (Hlen c Hc).
    + destruct (write_fault w) eqn:Hw.
      { by rewrite (writeChecks_fault _ _ Hw). }
      rewrite (writeChecks_ok _ _ Hw). intros [= <- <-]. split_and!; [|intros _|done].
      * split; [|done]. intros _.
        rewrite (filter_keeps_all (λ c, check_id c ≠ id)) in Hlen.
        apply not_Forall_Exists, Exists_exists in Hlen as (c & Hc & Hid); [|apply _].
        exists c. split; [done|].
        destruct (decide (check_id c = id)); [done|]. by destruct Hid.
      * assert (∀ c, c ∈ filter (λ c, check_id c ≠ id) (stored w) → check_id c ≠ id)
          as Hgone by (by intros c [? _]%list_elem_of_filter).
        split_and!; [done| |by apply deleteCheck_absent].
        intros Date_getTime filters l w''. rewrite getChecks_eq, narrow_matches.
        intros [= <- _] c Hc. rewrite sort_perm in Hc.
        apply list_elem_of_filter in Hc as [_ Hc]. by apply Hgone.
Qed.

(** ** validateCheckRequest *)

Lemma get_field_of v k : nullish v = false → get v k = Ok (field_of v k).
Proof. unfold field_of. by destruct v. Qed.

Lemma get_nullish v k : nullish v = true → get v k = Throw TypeError.
Proof. by destruct v. Qed.

Lemma vehicleExists_known w id : vehicleExists w id = Ok (known_vehicle w id).
Proof.
  unfold vehicleExists, known_vehicle, readVehicles.
  by destruct (vehicles_file w).
Qed.

Local Arguments includes : simpl never.
Local Arguments join : simpl never.

(** Each block of the validator appends the errors of its rule. *)
Local Ltac run_validator :=
  unfold mbind, Validator_bind, mret, Validator_ret, lift, push; simpl;
  rewrite ?app_nil_r, <- ?app_assoc; simpl.

Lemma validateVehicleId_run w body errors :
  nullish body = false →
  validateVehicleId w body errors =
    Ok ((), errors ++ vehicleId_errors w (field_of body "vehicleId")).
Proof.
  intros Hb. unfold validateVehicleId, vehicleId_errors.
  run_validator. rewrite (get_field_of _ _ Hb).
  destruct (truthy _); simpl; [|done].
  destruct (field_of body "vehicleId"); try done.
  rewrite vehicleExists_known. destruct (known_vehicle w s); simpl; [|done].
  by rewrite app_nil_r.
Qed.

Lemma validateOdometerKm_run body errors :
  nullish body = false →
  validateOdometerKm body errors =
    Ok ((), errors ++ odometerKm_errors (field_of body "odometerKm")).
Proof.
  intros Hb. unfold validateOdometerKm, odometerKm_errors.
  run_validator. rewrite (get_field_of _ _ Hb).
  destruct (field_of body "odometerKm") as [| | |n| | |]; simpl; try done.
  destruct (number_le_zero n); [done|]. by rewrite app_nil_r.
Qed.

Lemma validateNote_run body errors :
  nullish body = false →
  validateNote body errors = Ok ((), errors ++ note_errors (field_of body "note")).
Proof.
  intros Hb. unfold validateNote, note_errors.
  run_validator. rewrite (get_field_of _ _ Hb).
  destruct (field_of body "note") as [| | | |s| |]; simpl; rewrite ?app_nil_r; try done.
  destruct (300 <? String.length s); [done|]. by rewrite app_nil_r.
Qed.

Lemma validateItem_run item index keys errors :
  nullish item = false →
  validateItem item index keys errors =
    Ok (if counted item then keys_add (field_of item "key") keys else keys,
        errors ++ item_errors index item).
Proof.
  intros Hi. unfold validateItem, item_errors, key_errors, status_errors, counted,
    key_field, status_field.
  run_validator. rewrite !(get_field_of _ _ Hi).
  destruct (truthy (field_of item "key")); simpl;
    [destruct (includes VALID_KEYS (field_of item "key")); simpl|];
    (destruct (truthy (field_of item "status")); simpl;
     [destruct (includes VALID_STATUSES (field_of item "status")); simpl|]);
    by rewrite ?app_nil_r, <- ?app_assoc.
Qed.

Lemma validateItem_throws item index keys errors :
  nullish item = true → validateItem item index keys errors = Throw TypeError.
Proof.
  intros Hi. unfold validateItem. run_validator. by rewrite (get_nullish _ _ Hi).
Qed.

Lemma forEach_item_run elems index keys errors :
  forallb (λ item, negb (nullish item)) elems = true →
  forEach_item elems index keys errors =
    Ok (collected elems keys, errors ++ items_errors_from index elems).
Proof.
  revert index keys errors.
  induction elems as [|item rest IH]; intros index keys errors Hall; simpl.
  - by rewrite app_nil_r.
  - apply andb_true_iff in Hall as [Hitem Hrest].
    apply negb_true_iff in Hitem.
    unfold mbind, Validator_bind. rewrite (validateItem_run _ _ _ _ Hitem).
    rewrite IH by done. by rewrite <- app_assoc.
Qed.

Lemma forEach_item_throws elems index keys errors :
  forallb (λ item, negb (nullish item)) elems = false →
  forEach_item elems index keys errors = Throw TypeError.
Proof.
  revert index keys errors.
  induction elems as [|item rest IH]; intros index keys errors Hsome; simpl; [done|].
  unfold mbind, Validator_bind.
  destruct (nullish item) eqn:Hitem.
  - by rewrite validateItem_throws.
  - rewrite (validateItem_run _ _ _ _ Hitem). apply IH.
    simpl in Hsome. by rewrite Hitem in Hsome.
Qed.

Lemma forEach_required_run required keys errors :
  forEach_required required keys errors =
    Ok ((), errors ++ missing_errors required keys).
Proof.
  revert errors. unfold missing_errors.
  induction required as [|k rest IH]; intros errors; simpl.
  - by rewrite app_nil_r.
  - unfold mbind, Validator_bind. rewrite filter_cons.
    case_bool_decide; simpl.
    + rewrite decide_False by tauto. apply IH.
    + rewrite decide_True by done. unfold push.
      rewrite IH, <- app_assoc. done.
Qed.

Local Arguments forEach_required : simpl never.
Local Arguments forEach_item : simpl never.

Lemma validateItems_run body errors :
  dereferenceable body = true →
  validateItems body errors = Ok ((), errors ++ items_errors (field_of body "items")).
Proof.
  unfold dereferenceable. intros [Hb Hitems]%andb_true_iff.
  apply negb_true_iff in Hb.
  unfold validateItems, items_errors.
  unfold mbind at 1, Validator_bind at 1, lift. rewrite (get_field_of _ _ Hb).
  destruct (truthy (field_of body "items")) eqn:Htruthy; simpl; [|done].
  destruct (field_of body "items") as [| | | | |elems|]; try done.
  unfold mbind, Validator_bind.
  assert (∀ (b : bool) e errs,
    (if b then push e else mret ()) errs = Ok ((), errs ++ if b then [e] else []))
    as Hif by (intros [] ??; unfold push, mret, Validator_ret; by rewrite ?app_nil_r).
  rewrite Hif; cbv beta iota.
  rewrite forEach_item_run by done; cbv beta iota.
  rewrite Hif; cbv beta iota.
  rewrite forEach_required_run. by rewrite <- !app_assoc.
Qed.

Lemma validateItems_throws body errors :
  nullish body = false → dereferenceable body = false →
  validateItems body errors = Throw TypeError.
Proof.
  unfold dereferenceable. intros Hb. rewrite Hb. simpl. intros Hitems.
  unfold validateItems.
  unfold mbind at 1, Validator_bind at 1, lift. rewrite (get_field_of _ _ Hb).
  destruct (field_of body "items") as [| | | | |elems|]; try done.
  simpl. unfold mbind, Validator_bind.
  destruct (negb (length elems =? 5)); unfold push, mret, Validator_ret;
    by rewrite forEach_item_throws.
Qed.

(** The validator computes the error lists of its rules, in order. *)
Lemma validateCheckRequest_run w body :
  dereferenceable body = true →
  validateCheckRequest w body = Ok (expected_errors w body).
Proof.
  intros Hd. pose proof Hd as [Hb _]%andb_true_iff. apply negb_true_iff in Hb.
  unfold validateCheckRequest, expected_errors, mbind, Validator_bind.
  rewrite validateVehicleId_run by done; cbv beta iota.
  rewrite validateOdometerKm_run by done; cbv beta iota.
  rewrite validateItems_run by done; cbv beta iota.
  rewrite validateNote_run by done. by rewrite <- !app_assoc.
Qed.

Lemma validateCheckRequest_throws w body :
  dereferenceable body = false → validateCheckRequest w body = Throw TypeError.
Proof.
  intros Hd. unfold validateCheckRequest, mbind, Validator_bind.
  destruct (nullish body) eqn:Hb.
  - unfold validateVehicleId, mbind, Validator_bind, lift.
    by rewrite (get_nullish _ _ Hb).
  - rewrite validateVehicleId_run by done; cbv beta iota.
    rewrite validateOdometerKm_run by done; cbv beta iota.
    by rewrite validateItems_throws.
Qed.

(** C4, as stated, fails: on a [null] payload the first property read
    raises a TypeError. *)
Lemma validateCheckRequest_null_raises :
  validateCheckRequest mockWorld VNull = Throw TypeError ∧
  ¬ ∃ errors, validateCheckRequest mockWorld VNull = Ok errors.
Proof. split; [reflexivity|]. by intros [errors ?]. Qed.

(** C4, amended: [validateCheckRequest] returns a list of errors, without
    raising, for every payload other than [null] and [undefined] whose
    [items] array, if it has one, holds no [null] or [undefined] element,
    and raises a TypeError on the others; for the payload [{}] the list is
    one error for each of [vehicleId], [odometerKm] and [items]. *)
Theorem validateCheckRequest_returns_unless_nullish (w : World) (body : value) :
  (dereferenceable body = true → ∃ errors, validateCheckRequest w body = Ok errors) ∧
  (dereferenceable body = false → validateCheckRequest w body = Throw TypeError) ∧
  validateCheckRequest w (VObj []) =
    Ok [error "vehicleId" "is required"; error "odometerKm" "is required";
        error "items" "is required"].
Proof.
  split_and!.
  - intros Hd. eexists. by apply validateCheckRequest_run.
  - apply validateCheckRequest_throws.
  - reflexivity.
Qed.

(** *** The set of keys *)

Lemma size_keys_add v (keys : gset string) : size (keys_add v keys) ≤ S (size keys).
Proof.
  destruct v; simpl; try lia.
  rewrite size_union_alt, size_singleton.
  assert (size (keys ∖ {[s]}) ≤ size keys); [|lia].
  apply subseteq_size. by intros x [Hx _]%elem_of_difference.
Qed.

(** The loop adds at most one key per item whose key is in the
    enumeration. *)
Lemma size_collected elems (keys : gset string) :
  size (collected elems keys) ≤
    size keys + length (filter (λ item, counted item = true) elems).
Proof.
  revert keys. induction elems as [|item rest IH]; intros keys; simpl; [lia|].
  rewrite filter_cons. destruct (counted item) eqn:Hc.
  - rewrite decide_True by done. etrans; [apply IH|].
    pose proof (size_keys_add (field_of item "key") keys). simpl. lia.
  - rewrite decide_False by done. apply IH.
Qed.

Lemma get_items_dereferenceable body elems :
  get body "items" = Ok (VArr elems) →
  Forall (λ item, nullish item = false) elems →
  dereferenceable body = true ∧ field_of body "items" = VArr elems.
Proof.
  intros Hget Hall. unfold dereferenceable, field_of. rewrite Hget.
  split; [|done]. apply andb_true_iff. split.
  - by destruct body.
  - apply forallb_forall. rewrite Forall_forall in Hall.
    intros item Hin%list_elem_of_In. by rewrite Hall.
Qed.

(** C10: five items, none of them [null] or [undefined], of which at least
    one has a key outside the enumeration, get the set-level error "must
    contain all 5 keys exactly once (no duplicates)", whether or not a key
    occurs twice: fewer than five keys reach the set. *)
Theorem foreign_key_reported_as_duplicate (w : World) (body : value) (elems : list value) :
  get body "items" = Ok (VArr elems) →
  length elems = 5 →
  Forall (λ item, nullish item = false) elems →
  (∃ item, item ∈ elems ∧ includes VALID_KEYS (field_of item "key") = false) →
  ∃ errors,
    validateCheckRequest w body = Ok errors ∧
    duplicates_error ∈ errors ∧
    size (collected elems ∅) < 5.
Proof.
  intros Hget Hlen Hall (item & Hin & Hforeign).
  destruct (get_items_dereferenceable _ _ Hget Hall) as [Hd Hitems].
  assert (size (collected elems ∅) < 5) as Hsize.
  { pose proof (size_collected elems ∅) as Hle. rewrite size_empty in Hle.
    assert (length (filter (λ item, counted item = true) elems) < length elems).
    { apply (length_filter_lt _ _ item Hin). unfold counted.
      rewrite Hforeign, andb_false_r. done. }
    lia. }
  exists (expected_errors w body). split_and!; [by apply validateCheckRequest_run| |done].
  unfold expected_errors. rewrite Hitems. unfold items_errors. simpl.
  rewrite Hlen. simpl.
  destruct (Nat.eqb_spec (size (collected elems ∅)) 5) as [Heq|_]; [lia|].
  simpl. set_solver.
Qed.

(** *** Valid requests *)

Lemma includes_inv l v : includes l v = true → ∃ s, v = VStr s ∧ s ∈ l.
Proof.
  unfold includes. rewrite existsb_exists. intros (s & Hin & Heq).
  destruct v; try done. apply String.eqb_eq in Heq as ->.
  eexists. split; [done|]. by apply list_elem_of_In.
Qed.

Lemma includes_intro l s : s ∈ l → includes l (VStr s) = true.
Proof.
  intros Hin. unfold includes. rewrite existsb_exists. exists s.
  split; [by apply list_elem_of_In|]. apply String.eqb_refl.
Qed.

Lemma elem_of_collected elems (keys : gset string) s :
  s ∈ collected elems keys ↔
  s ∈ keys ∨ ∃ item, item ∈ elems ∧ counted item = true ∧ field_of item "key" = VStr s.
Proof.
  revert keys. induction elems as [|item rest IH]; intros keys; simpl.
  - split; [by left|]. intros [?|(item & Hin & _)]; [done|]. by apply elem_of_nil in Hin.
  - rewrite IH. destruct (counted item) eqn:Hc.
    + assert (∃ k, field_of item "key" = VStr k) as [k Hk].
      { apply andb_true_iff in Hc as [_ Hc]. apply includes_inv in Hc as (k & ? & _). eauto. }
      rewrite Hk. simpl. rewrite elem_of_union, elem_of_singleton. split.
      * intros [[->|?]|(item' & Hin & Hc' & Hk')]; [right|by left|right].
        -- exists item. split_and!; [left|done..].
        -- exists item'. split_and!; [by right|done..].
      * intros [?|(item' & Hin & Hc' & Hk')]; [by left; right|].
        apply elem_of_cons in Hin as [->|Hin].
        -- left; left. congruence.
        -- right. by exists item'.
    + split.
      * intros [?|(item' & Hin & Hc' & Hk')]; [by left|right].
        exists item'. split_and!; [by right|done..].
      * intros [?|(item' & Hin & Hc' & Hk')]; [by left|right].
        apply elem_of_cons in Hin as [->|Hin]; [congruence|]. by exists item'.
Qed.

Lemma valid_items_no_errors elems index :
  forallb valid_item elems = true → items_errors_from index elems = [].
Proof.
  revert index. induction elems as [|item rest IH]; intros index; simpl; [done|].
  intros [Hitem Hrest]%andb_true_iff. rewrite (IH _ Hrest), app_nil_r.
  unfold valid_item, counted in Hitem.
  apply andb_true_iff in Hitem as [[[Hk Hkin]%andb_true_iff Hs]%andb_true_iff Hsin].
  unfold item_errors, key_errors, status_errors. by rewrite Hk, Hkin, Hs, Hsin.
Qed.

Lemma valid_items_collected elems :
  forallb valid_item elems = true → covers_all_keys elems = true →
  collected elems ∅ = list_to_set VALID_KEYS.
Proof.
  intros Hvalid Hcovers. apply set_eq. intros s.
  rewrite elem_of_collected, elem_of_list_to_set. split.
  - intros [Hin|(item & _ & Hc & Hk)]; [by apply not_elem_of_empty in Hin|].
    apply andb_true_iff in Hc as [_ Hc]. rewrite Hk in Hc.
    apply includes_inv in Hc as (s' & [= ->] & Hin). done.
  - intros Hin. right. unfold covers_all_keys in Hcovers.
    rewrite forallb_forall in Hcovers.
    specialize (Hcovers s (proj1 (list_elem_of_In _ _) Hin)).
    apply existsb_exists in Hcovers as (item & Hitem & Heq).
    rewrite forallb_forall in Hvalid. specialize (Hvalid item Hitem).
    exists item. split_and!.
    + by apply list_elem_of_In.
    + unfold valid_item in Hvalid. by do 2 (apply andb_true_iff in Hvalid as [Hvalid _]).
    + destruct (field_of item "key"); try done. by apply String.eqb_eq in Heq as ->.
Qed.

Lemma valid_request_dereferenceable w body :
  valid_request w body = true → dereferenceable body = true.
Proof.
  unfold valid_request.
  destruct (get body "vehicleId") as [[| | | |id| |]|] eqn:Hid; try done.
  destruct (get body "odometerKm") as [[| | |[|q|]| | |]|]; try done.
  destruct (get body "items") as [[| | | | |elems|]|] eqn:Hitems; try done.
  intros Hvalid. repeat (apply andb_true_iff in Hvalid as [Hvalid ?]).
  eapply get_items_dereferenceable; [done|].
  apply Forall_forall. intros item Hin%list_elem_of_In.
  match goal with H : forallb valid_item _ = true |- _ =>
    rewrite forallb_forall in H; specialize (H item Hin) end.
  by destruct item.
Qed.

(** A valid request draws no error but those of its note. *)
Lemma valid_request_errors w body :
  valid_request w body = true →
  validateCheckRequest w body = Ok (note_errors (field_of body "note")).
Proof.
  intros Hvalid. rewrite validateCheckRequest_run
    by by eapply valid_request_dereferenceable.
  f_equal. unfold expected_errors, field_of. revert Hvalid. unfold valid_request.
  destruct (get body "vehicleId") as [[| | | |id| |]|] eqn:Hid; try done.
  destruct (get body "odometerKm") as [[| | |[|q|]| | |]|]; try done.
  destruct (get body "items") as [[| | | | |elems|]|] eqn:Hitems; try done.
  intros Hvalid.
  apply andb_true_iff in Hvalid as [Hvalid Hcovers].
  apply andb_true_iff in Hvalid as [Hvalid Hitemsok].
  apply andb_true_iff in Hvalid as [Hvalid Hlen].
  apply andb_true_iff in Hvalid as [Hvalid Hpos].
  apply andb_true_iff in Hvalid as [Hnonempty Hknown].
  apply negb_true_iff in Hpos.
  unfold vehicleId_errors, odometerKm_errors, items_errors. simpl.
  rewrite Hnonempty, Hknown, Hpos, Hlen. simpl.
  rewrite valid_items_no_errors, valid_items_collected by done.
  reflexivity.
Qed.

(** C9: a request that is valid apart from its note and carries
    [note: null] gets the empty list of errors; the rules for the note are
    passed over for [null] as they are for a note that is absent. *)
Theorem null_note_accepted (w : World) (body : value) :
  valid_request w body = true →
  get body "note" = Ok VNull →
  validateCheckRequest w body = Ok [] ∧
  ∀ body', valid_request w body' = true → get body' "note" = Ok VUndefined →
           validateCheckRequest w body' = validateCheckRequest w body.
Proof.
  intros Hvalid Hnote.
  assert (validateCheckRequest w body = Ok []) as Hnull.
  { rewrite (valid_request_errors _ _ Hvalid). unfold field_of. by rewrite Hnote. }
  split; [done|].
  intros body' Hvalid' Hnote'. rewrite Hnull, (valid_request_errors _ _ Hvalid').
  unfold field_of. by rewrite Hnote'.
Qed.

(** *** Field paths *)

Lemma length_append s t :
  String.length (s +:+ t) = String.length s + String.length t.
Proof. induction s as [|a s IH]; simpl; [done|]. by rewrite <- IH. Qed.

Lemma append_inj_r t s1 s2 : s1 +:+ t = s2 +:+ t → s1 = s2.
Proof.
  revert s2. induction s1 as [|a s1 IH]; intros [|b s2] Heq; [done| | |].
  - apply (f_equal String.length) in Heq.
    rewrite !length_append in Heq. simpl in Heq. lia.
  - apply (f_equal String.length) in Heq.
    rewrite !length_append in Heq. simpl in Heq. lia.
  - injection Heq as -> Heq. f_equal. by apply IH.
Qed.

Lemma last_char_append s a t :
  last_char (s +:+ String a t) = last_char (String a t).
Proof.
  induction s as [|b s IH]; [done|].
  change (String b s +:+ String a t) with (String b (s +:+ String a t)).
  rewrite <- IH. by destruct s.
Qed.

Lemma key_field_inj i j : key_field i = key_field j → i = j.
Proof.
  unfold key_field. intros Heq%(inj (String.app "items[")).
  by apply append_inj_r, (inj pretty) in Heq.
Qed.

Lemma status_field_inj i j : status_field i = status_field j → i = j.
Proof.
  unfold status_field. intros Heq%(inj (String.app "items[")).
  by apply append_inj_r, (inj pretty) in Heq.
Qed.

Lemma key_field_status_field i j : key_field i ≠ status_field j.
Proof.
  unfold key_field, status_field. intros Heq%(inj (String.app "items[")).
  apply (f_equal last_char) in Heq. by rewrite !last_char_append in Heq.
Qed.

Lemma plain_field_not_indexed f i :
  plain_field f → f ≠ key_field i ∧ f ≠ status_field i.
Proof.
  unfold key_field, status_field.
  intros [-> | [-> | [-> | ->]]]; split; intros Heq;
    apply (f_equal (λ s, String.substring 0 6 s)) in Heq; discriminate Heq.
Qed.

(** *** Where an error comes from *)

Lemma elem_of_items_errors_from e index elems :
  e ∈ items_errors_from index elems ↔
  ∃ j item, elems !! j = Some item ∧ e ∈ item_errors (index + j) item.
Proof.
  revert index. induction elems as [|item rest IH]; intros index; simpl.
  - split; [by intros ?%elem_of_nil|]. by intros (j & item & ? & _).
  - rewrite elem_of_app, IH. split.
    + intros [Hin|(j & item' & Hj & Hin)].
      * exists 0, item. by rewrite Nat.add_0_r.
      * exists (S j), item'. by rewrite Nat.add_succ_r.
    + intros ([|j] & item' & Hj & Hin); simplify_eq/=.
      * left. by rewrite Nat.add_0_r in Hin.
      * right. exists j, item'. by rewrite Nat.add_succ_r in Hin.
Qed.

(** [e ∈ [x]] for the one-error lists of the rules. *)
Local Ltac the_error := repeat case_match; set_unfold; destruct_or?; subst; done.

Lemma item_errors_field e index item :
  e ∈ item_errors index item →
  (field e = key_field index ∧ e ∈ key_errors index (field_of item "key")) ∨
  (field e = status_field index ∧ e ∈ status_errors index (field_of item "status")).
Proof.
  unfold item_errors. rewrite elem_of_app. intros [Hin|Hin]; [left|right].
  - split; [|done]. unfold key_errors in Hin. the_error.
  - split; [|done]. unfold status_errors in Hin. the_error.
Qed.

Lemma expected_errors_origin w body e :
  e ∈ expected_errors w body →
  (plain_field (field e) ∧
   (field e = "vehicleId" → e ∈ vehicleId_errors w (field_of body "vehicleId"))) ∨
  ∃ elems j item,
    field_of body "items" = VArr elems ∧ elems !! j = Some item ∧
    e ∈ item_errors j item.
Proof.
  unfold expected_errors, plain_field. rewrite !elem_of_app.
  intros [Hin|[Hin|[Hin|Hin]]].
  - left. split; [|done]. left. unfold vehicleId_errors in Hin. the_error.
  - left. unfold odometerKm_errors in Hin. split; [right; left|]; the_error.
  - unfold items_errors in Hin.
    destruct (negb (truthy _)).
    { left. split; [do 2 right; left|]; the_error. }
    destruct (field_of body "items") as [| | | | |elems|] eqn:Hitems;
      try (left; split; [do 2 right; left|]; the_error).
    rewrite !elem_of_app in Hin. destruct Hin as [Hin|[Hin|[Hin|Hin]]].
    + left. split; [do 2 right; left|]; the_error.
    + right. apply elem_of_items_errors_from in Hin as (j & item & Hj & Hin).
      by exists elems, j, item.
    + left. split; [do 2 right; left|]; the_error.
    + left. unfold missing_errors in Hin.
      apply list_elem_of_fmap in Hin as (k & -> & _).
      split; [do 2 right; by left|done].
  - left. unfold note_errors in Hin. split; [do 3 right|]; the_error.
Qed.

Lemma item_errors_expected w body elems i item e :
  field_of body "items" = VArr elems → elems !! i = Some item →
  e ∈ item_errors i item → e ∈ expected_errors w body.
Proof.
  intros Hitems Hi Hin. unfold expected_errors. rewrite Hitems.
  rewrite !elem_of_app. right; right; left.
  unfold items_errors. simpl. rewrite !elem_of_app. right; left.
  apply elem_of_items_errors_from. by exists i, item.
Qed.

Lemma get_Ok_field_of v k x : get v k = Ok x → field_of v k = x.
Proof. unfold field_of. by intros ->. Qed.

(** C8: presence is falsiness.  An empty-string [vehicleId] is reported as
    "is required" and nothing else is reported for the field, whatever the
    vehicles on file; an empty-string [key] or [status] of an item is
    reported as "is required" at its position and nothing else is reported
    for that position. *)
Theorem empty_string_counts_as_missing (w : World) (body : value) :
  dereferenceable body = true →
  ∃ errors,
    validateCheckRequest w body = Ok errors ∧
    (get body "vehicleId" = Ok (VStr "") →
       error "vehicleId" "is required" ∈ errors ∧
       (∀ e, e ∈ errors → field e = "vehicleId" → reason e = "is required") ∧
       (∀ w', validateCheckRequest w' body = Ok errors)) ∧
    (∀ elems i item,
       get body "items" = Ok (VArr elems) → elems !! i = Some item →
       (get item "key" = Ok (VStr "") →
          error (key_field i) "is required" ∈ errors ∧
          ∀ e, e ∈ errors → field e = key_field i → reason e = "is required") ∧
       (get item "status" = Ok (VStr "") →
          error (status_field i) "is required" ∈ errors ∧
          ∀ e, e ∈ errors → field e = status_field i → reason e = "is required")).
Proof.
  intros Hd. exists (expected_errors w body).
  split; [by apply validateCheckRequest_run|]. split.
  - intros Hid%get_Ok_field_of. split_and!.
    + unfold expected_errors. rewrite Hid. simpl. left.
    + intros e [[_ Hv]|(elems & j & item & _ & _ & Hin)]%expected_errors_origin Hf.
      * specialize (Hv Hf). rewrite Hid in Hv. simpl in Hv.
        by apply list_elem_of_singleton in Hv as ->.
      * assert (plain_field (field e)) as Hplain by (by left).
        destruct (plain_field_not_indexed _ j Hplain) as [Hk Hs].
        by apply item_errors_field in Hin as [[? _]|[? _]].
    + intros w'. rewrite validateCheckRequest_run by done.
      unfold expected_errors. by rewrite Hid.
  - intros elems i item Hitems%get_Ok_field_of Hi. split.
    + intros Hk%get_Ok_field_of.
      assert (key_errors i (field_of item "key") = [error (key_field i) "is required"])
        as Hkey by (by rewrite Hk).
      split.
      * apply (item_errors_expected _ _ elems i item); [done..|].
        unfold item_errors. rewrite Hkey. left.
      * intros e [[Hplain _]|(elems' & j & item' & Hitems' & Hj & Hin)]%expected_errors_origin Hf.
        { by destruct (plain_field_not_indexed _ i Hplain). }
        apply item_errors_field in Hin as [[Hf' Hin]|[Hf' _]].
        -- rewrite Hf in Hf'. apply key_field_inj in Hf' as <-.
           rewrite Hitems in Hitems'. simplify_eq. rewrite Hkey in Hin.
           by apply list_elem_of_singleton in Hin as ->.
        -- rewrite Hf in Hf'. by apply key_field_status_field in Hf'.
    + intros Hs%get_Ok_field_of.
      assert (status_errors i (field_of item "status")
              = [error (status_field i) "is required"])
        as Hstatus by (by rewrite Hs).
      split.
      * apply (item_errors_expected _ _ elems i item); [done..|].
        unfold item_errors. rewrite Hstatus. apply elem_of_app. right. left.
      * intros e [[Hplain _]|(elems' & j & item' & Hitems' & Hj & Hin)]%expected_errors_origin Hf.
        { by destruct (plain_field_not_indexed _ i Hplain). }
        apply item_errors_field in Hin as [[Hf' _]|[Hf' Hin]].
        -- rewrite Hf in Hf'. symmetry in Hf'. by apply key_field_status_field in Hf'.
        -- rewrite Hf in Hf'. apply status_field_inj in Hf' as <-.
           rewrite Hitems in Hitems'. simplify_eq. rewrite Hstatus in Hin.
           by apply list_elem_of_singleton in Hin as ->.
Qed.

(** ** The scenarios of the specification and of the test suite *)

Example valid_request_passes : validateCheckRequest mockWorld validBody = Ok [].
Proof. reflexivity. Qed.

Example unknown_vehicle_rejected :
  validateCheckRequest mockWorld (with_prop "vehicleId" (VStr "DOES_NOT_EXIST") validBody)
  = Ok [error "vehicleId" "vehicle does not exist"].
Proof. reflexivity. Qed.

Example two_items_rejected :
  ∃ errors,
    validateCheckRequest mockWorld
      (with_prop "items" (VArr [item_value "TYRES" "OK"; item_value "BRAKES" "OK"]) validBody)
    = Ok errors ∧ error "items" "must contain exactly 5 items" ∈ errors.
Proof. eexists. split; [vm_compute; reflexivity|]. left. Qed.

Example null_item_raises :
  validateCheckRequest mockWorld (with_prop "items" (VArr [VNull]) validBody)
  = Throw TypeError.
Proof. reflexivity. Qed.

Example near_miss_status_is_no_issue :
  ∃ c w',
    createCheck "test-uuid-1234" "2026-01-27T10:00:00.000Z"
      {| vehicleId := "VH001"; odometerKm := Finite (inject_Z 15000);
         items := [ {| key := "BRAKES"; status := "FAILED" |};
                    {| key := "OIL"; status := "fail" |} ];
         note := VUndefined; excess := [] |} mockWorld = (Ok c, w') ∧
    check_hasIssue c = false.
Proof. do 2 eexists. split; reflexivity. Qed.

Example newest_check_first :
  getChecks mock_getTime {| filter_vehicleId := "VH001"; filter_hasIssue := None |} mockWorld
  = (Ok [CHK002; CHK001], mockWorld).
Proof. reflexivity. Qed.

(** ** Instances *)

Lemma storage_fault_handling_witness :
  (∃ w', writeChecks [] unreadable = (Throw IOError, w')) ∧
  readChecks unreadable = Ok [].
Proof.
  destruct (storage_fault_handling unreadable []) as (Hwrite & _ & Hread & _).
  split.
  - eexists. apply Hwrite. reflexivity.
  - apply (Hread IOError). reflexivity.
Defined.

Lemma createCheck_hasIssue_witness :
  write_fault mockWorld = false ∧
  ∃ c w',
    createCheck "test-uuid-1234" "2026-01-27T10:00:00.000Z" failingData mockWorld
      = (Ok c, w') ∧
    check_hasIssue c = true.
Proof.
  split; [reflexivity|].
  destruct (createCheck_hasIssue "test-uuid-1234" "2026-01-27T10:00:00.000Z"
              failingData mockWorld) as [Hreturns Hcheck].
  destruct (Hreturns eq_refl) as (c & w' & Hrun).
  destruct (Hcheck c w' Hrun) as (_ & Hflag & _).
  exists c, w'. split; [exact Hrun|]. apply Hflag.
  exists {| key := "BRAKES"; status := "FAIL" |}. split; [|reflexivity].
  right; left.
Defined.

Lemma createCheck_note_witness :
  write_fault mockWorld = false ∧
  ∃ c w',
    createCheck "test-uuid-1234" "2026-01-27T10:00:00.000Z" notedData mockWorld
      = (Ok c, w') ∧
    check_note c = Some (VStr "All good").
Proof.
  split; [reflexivity|].
  destruct (createCheck_note "test-uuid-1234" "2026-01-27T10:00:00.000Z"
              notedData mockWorld) as [Hreturns Hcheck].
  destruct (Hreturns eq_refl) as (c & w' & Hrun).
  destruct (Hcheck c w' Hrun) as (_ & _ & Hnote).
  exists c, w'. split; [exact Hrun|]. apply Hnote. reflexivity.
Defined.

Lemma validateCheckRequest_returns_unless_nullish_witness :
  dereferenceable validBody = true ∧
  ∃ errors, validateCheckRequest mockWorld validBody = Ok errors.
Proof.
  split; [reflexivity|].
  apply (validateCheckRequest_returns_unless_nullish mockWorld validBody).
  reflexivity.
Defined.

Lemma deleteCheck_removes_witness :
  write_fault mockWorld = false ∧
  ∃ w', deleteCheck "CHK001" mockWorld = (Ok true, w') ∧ stored w' = [CHK002].
Proof.
  split; [reflexivity|].
  destruct (deleteCheck_removes "CHK001" mockWorld) as (Hreturns & _ & Hcheck).
  destruct (Hreturns eq_refl) as (removed & w' & Hrun).
  destruct (Hcheck removed w' Hrun) as (Hiff & Hgone & _).
  assert (removed = true) as ->.
  { apply Hiff. exists CHK001. split; [left|reflexivity]. }
  exists w'. split; [exact Hrun|].
  destruct (Hgone eq_refl) as (-> & _). reflexivity.
Defined.

Lemma getChecks_hasIssue_partition_witness :
  ∃ all yes no,
    getChecks mock_getTime {| filter_vehicleId := "VH001"; filter_hasIssue := None |}
      mockWorld = (Ok all, mockWorld) ∧
    yes = filter (λ c, check_hasIssue c = true) all ∧
    no = filter (λ c, check_hasIssue c = false) all.
Proof.
  destruct (getChecks_hasIssue_partition mock_getTime "VH001" mockWorld)
    as (all & yes & no & Hall & _ & _ & _ & _ & _ & Hseq).
  exists all, yes, no. split; [exact Hall|]. apply Hseq.
  injection Hall as <-. repeat constructor; by eexists.
Defined.

Lemma getChecks_selection_sorted_witness :
  ∃ l,
    getChecks mock_getTime {| filter_vehicleId := "VH001"; filter_hasIssue := None |}
      mockWorld = (Ok l, mockWorld) ∧
    ∀ a b, l !! 0 = Some a → l !! 1 = Some b → not_older mock_getTime a b.
Proof.
  destruct (getChecks_selection_sorted mock_getTime
              {| filter_vehicleId := "VH001"; filter_hasIssue := None |} mockWorld)
    as (l & Hrun & _ & _ & Hsorted).
  exists l. split; [exact Hrun|]. intros a b. apply Hsorted; [|lia].
  injection Hrun as <-. repeat constructor; by eexists.
Defined.

Lemma empty_string_counts_as_missing_witness :
  dereferenceable (with_prop "vehicleId" (VStr "") validBody) = true ∧
  ∃ errors,
    validateCheckRequest mockWorld (with_prop "vehicleId" (VStr "") validBody)
      = Ok errors ∧
    error "vehicleId" "is required" ∈ errors.
Proof.
  split; [reflexivity|].
  destruct (empty_string_counts_as_missing mockWorld
              (with_prop "vehicleId" (VStr "") validBody) eq_refl)
    as (errors & Hrun & Hid & _).
  exists errors. split; [exact Hrun|]. by apply Hid.
Defined.

Lemma null_note_accepted_witness :
  valid_request mockWorld (with_prop "note" VNull validBody) = true ∧
  get (with_prop "note" VNull validBody) "note" = Ok VNull ∧
  validateCheckRequest mockWorld (with_prop "note" VNull validBody) = Ok [].
Proof.
  split; [reflexivity|]. split; [reflexivity|].
  destruct (null_note_accepted mockWorld (with_prop "note" VNull validBody)
              eq_refl eq_refl) as [Hnull _].
  exact Hnull.
Defined.

Lemma foreign_key_reported_as_duplicate_witness :
  get (with_prop "items" (VArr foreign_items) validBody) "items"
    = Ok (VArr foreign_items) ∧
  length foreign_items = 5 ∧
  ∃ errors,
    validateCheckRequest mockWorld (with_prop "items" (VArr foreign_items) validBody)
      = Ok errors ∧
    duplicates_error ∈ errors.
Proof.
  split; [reflexivity|]. split; [reflexivity|].
  destruct (foreign_key_reported_as_duplicate mockWorld
              (with_prop "items" (VArr foreign_items) validBody) foreign_items)
    as (errors & Hrun & Hdup & _).
  - reflexivity.
  - reflexivity.
  - repeat constructor.
  - exists (item_value "WIPERS" "OK"). split; [|reflexivity].
    do 4 right. left.
  - exists errors. split; [exact Hrun | exact Hdup].
Defined.

(** * Further properties *)

(** ** Looking a check up by id *)

Lemma getCheckById_eq id w :
  getCheckById id w =
    (Ok (find (λ check, String.eqb (check_id check) id) (stored w)), w).
Proof.
  unfold getCheckById, mbind, Service_bind, reading, mret, Service_ret.
  by rewrite readChecks_stored.
Qed.

Lemma find_first {A} (p : A → bool) (l : list A) :
  match find p l with
  | Some x =>
      p x = true ∧
      ∃ i, l !! i = Some x ∧ ∀ j y, j < i → l !! j = Some y → p y = false
  | None => ∀ x, x ∈ l → p x = false
  end.
Proof.
  induction l as [|a l IH]; simpl.
  - by intros x ?%elem_of_nil.
  - destruct (p a) eqn:Ha.
    + split; [done|]. exists 0. split; [done|]. lia.
    + destruct (find p l) as [x|].
      * destruct IH as (Hx & i & Hi & Hbefore). split; [done|].
        exists (S i). split; [done|]. intros [|j] y Hj Hy; simplify_eq/=; [done|].
        apply (Hbefore j); [lia|done].
      * intros x [->|Hin]%elem_of_cons; [done|]. by apply IH.
Qed.

(** X1: [getCheckById] leaves the store alone and never raises; it finds
    nothing exactly when no stored check has the id, and what it finds is
    the first stored check with that id. *)
Theorem getCheckById_first (id : string) (w : World) :
  ∃ found,
    getCheckById id w = (Ok found, w) ∧
    (found = None ↔ ∀ c, c ∈ stored w → check_id c ≠ id) ∧
    (∀ c, found = Some c →
       check_id c = id ∧
       ∃ i, stored w !! i = Some c ∧
            ∀ j c', j < i → stored w !! j = Some c' → check_id c' ≠ id).
Proof.
  eexists. split; [apply getCheckById_eq|].
  pose proof (find_first (λ check, String.eqb (check_id check) id) (stored w)) as Hfind.
  destruct (find _ (stored w)) as [c|].
  - destruct Hfind as (Hc%String.eqb_eq & i & Hi & Hbefore). split.
    + split; [done|]. intros Hnone. destruct (Hnone c); [|done].
      apply list_elem_of_lookup. eauto.
    + intros c' [= <-]. split; [done|]. exists i. split; [done|].
      intros j c' Hj Hc'. by apply String.eqb_neq, (Hbefore j).
  - split; [|done]. split; [|done]. intros _ c Hc. by apply String.eqb_neq, Hfind.
Qed.



Lemma filter_app_fresh {A} (P : A → Prop) `{!∀ x, Decision (P x)} (l : list A) x :
  Forall P l → ¬ P x → filter P (l ++ [x]) = l.
Proof.
  intros Hl Hx. rewrite filter_app, filter_cons_False, filter_nil, app_nil_r by done.
  induction Hl as [|a l Ha Hl IH]; [done|].
  by rewrite filter_cons_True, IH.
Qed.

(** X3: deleting a check right after creating it under a fresh id returns
    true and leaves the stored collection as it was before the two calls. *)
Theorem deleteCheck_createCheck uuid now (d : CreateCheckData) (w : World) :
  write_fault w = false →
  (∀ c, c ∈ stored w → check_id c ≠ uuid) →
  ∃ c w' w'',
    createCheck uuid now d w = (Ok c, w') ∧
    deleteCheck uuid w' = (Ok true, w'') ∧
    stored w'' = stored w.
Proof.
  intros Hw Hfresh.
  destruct (createCheck_ok uuid now d w Hw) as (c & Hrun & Hid & _).
  match type of Hrun with _ = (_, ?x) => set (w' := x) in * end.
  assert (stored w' = stored w ++ [c]) as Hstored by done.
  assert (write_fault w' = false) as Hw' by done.
  exists c, w'; eexists. split; [exact Hrun|].
  rewrite deleteCheck_eq. cbv zeta.
  rewrite Hstored, filter_app_fresh; [| by apply Forall_forall | by intros []].
  rewrite length_app. change (length [c]) with 1.
  destruct (Nat.eqb_spec (length (stored w)) (length (stored w) + 1)); [lia|].
  by rewrite (writeChecks_ok _ _ Hw').
Qed.

(** X4: on a store whose checks file cannot be read, every operation sees
    an empty collection: no check is listed or found, a delete returns
    false without writing, and a create that can write leaves the new
    check as the only stored one. *)
Theorem unreadable_store_reads_as_empty (Date_getTime : string → option Z)
    uuid now (d : CreateCheckData) (filters : CheckFilters) (id : string) (w : World) :
  checks_file w = None →
  getChecks Date_getTime filters w = (Ok [], w) ∧
  getCheckById id w = (Ok None, w) ∧
  deleteCheck id w = (Ok false, w) ∧
  (write_fault w = false →
   ∃ c w', createCheck uuid now d w = (Ok c, w') ∧ checks_file w' = Some [c]).
Proof.
  intros Hfile.
  assert (stored w = []) as Hstored by (unfold stored; by rewrite Hfile).
  split_and!.
  - rewrite getChecks_eq, narrow_matches, Hstored. done.
  - by rewrite getCheckById_eq, Hstored.
  - apply deleteCheck_absent. rewrite Hstored. by intros c ?%elem_of_nil.
  - intros Hw. destruct (createCheck_ok uuid now d w Hw) as (c & Hrun & _).
    rewrite Hstored in Hrun. by exists c; eexists.
Qed.

(** ** Listing after a change *)

Lemma deleteCheck_true_inv id w w' :
  deleteCheck id w = (Ok true, w') →
  stored w' = filter (λ c, check_id c ≠ id) (stored w).
Proof.
  rewrite deleteCheck_eq. cbv zeta. destruct (_ =? _); [done|].
  destruct (write_fault w) eqn:Hw.
  - by rewrite (writeChecks_fault _ _ Hw).
  - rewrite (writeChecks_ok _ _ Hw). by intros [= <-].
Qed.

Section listing.

Variable Date_getTime : string → option Z.

Local Abbreviation time c := (Date_getTime (check_createdAt c)).
Local Abbreviation cmp := (newest_first Date_getTime).

Lemma sort_same_time t l :
  Forall (λ c, time c = Some t) l → sort cmp l = l.
Proof.
  induction 1 as [|x l Hx Hl IH]; [done|].
  rewrite sort_cons, IH. apply sort_insert_head.
  intros y Hy. destruct l as [|y' l]; simplify_eq/=.
  apply Forall_cons in Hl as [Hy _].
  rewrite (sorts_after_dated _ x y t t) by done.
  apply bool_decide_eq_false. lia.
Qed.

Lemma sort_app_newest l c tc :
  time c = Some tc →
  Forall (λ x, ∃ t, time x = Some t ∧ (t < tc)%Z) l →
  sort cmp (l ++ [c]) = c :: sort cmp l.
Proof.
  intros Hc. induction 1 as [|x l (t & Hx & Hlt) Hl IH]; [done|].
  rewrite <- app_comm_cons, !sort_cons, IH.
  change (sort_insert cmp x (c :: sort cmp l))
    with (if sorts_after cmp x c then c :: sort_insert cmp x (sort cmp l)
          else x :: c :: sort cmp l).
  rewrite (sorts_after_dated _ x c t tc) by done.
  by rewrite bool_decide_true by lia.
Qed.

(** X5: checks with the same [createdAt] instant are listed in the order
    in which they are stored. *)
Theorem getChecks_stable (filters : CheckFilters) (t : Z) (w : World) :
  dated Date_getTime (stored w) →
  ∃ l,
    getChecks Date_getTime filters w = (Ok l, w) ∧
    filter (λ c, time c = Some t) l =
    filter (λ c, time c = Some t) (filter (matches filters) (stored w)).
Proof.
  intros Hd. eexists. split; [apply getChecks_eq|]. rewrite narrow_matches.
  rewrite filter_sort.
  - apply (sort_same_time t). apply Forall_forall.
    by intros c [? _]%list_elem_of_filter.
  - apply Forall_forall. intros c [_ Hc]%list_elem_of_filter.
    unfold dated in Hd. rewrite Forall_forall in Hd. by apply Hd.
Qed.

(** X6: a check created with a [createdAt] later than that of every
    stored check of its vehicle is listed first for that vehicle, ahead of
    what was listed before. *)
Theorem createCheck_listed_first uuid now (d : CreateCheckData) (tnow : Z) (w : World) :
  write_fault w = false →
  Date_getTime now = Some tnow →
  (∀ c, c ∈ stored w → check_vehicleId c = vehicleId d →
        ∃ t, time c = Some t ∧ (t < tnow)%Z) →
  ∃ c w' before,
    createCheck uuid now d w = (Ok c, w') ∧
    getChecks Date_getTime {| filter_vehicleId := vehicleId d; filter_hasIssue := None |} w
      = (Ok before, w) ∧
    getChecks Date_getTime {| filter_vehicleId := vehicleId d; filter_hasIssue := None |} w'
      = (Ok (c :: before), w').
Proof.
  intros Hw Hnow Hnewer.
  destruct (createCheck_ok uuid now d w Hw) as (c & Hrun & _ & Hat & Hvid & _).
  match type of Hrun with _ = (_, ?x) => set (w' := x) in * end.
  assert (stored w' = stored w ++ [c]) as Hstored by done.
  exists c, w'; eexists. split; [exact Hrun|]. split; [apply getChecks_eq|].
  rewrite getChecks_eq, Hstored. unfold narrow; simpl.
  rewrite filter_app, filter_cons_True, filter_nil by done.
  rewrite (sort_app_newest _ c tnow); [done|by rewrite Hat|].
  apply Forall_forall. intros x [Hx Hin]%list_elem_of_filter. by apply Hnewer.
Qed.

(** X7: creating a check changes no listing that the new check does not
    belong to: another vehicle's, or the one with the other [hasIssue]. *)
Theorem createCheck_other_listings uuid now (d : CreateCheckData)
    (filters : CheckFilters) (w w' : World) (c : Check) :
  createCheck uuid now d w = (Ok c, w') →
  ¬ matches filters c →
  ∃ l,
    getChecks Date_getTime filters w = (Ok l, w) ∧
    getChecks Date_getTime filters w' = (Ok l, w').
Proof.
  intros (_ & Hstored & _)%createCheck_inv Hno.
  eexists. split; [apply getChecks_eq|].
  rewrite getChecks_eq, !narrow_matches, Hstored.
  by rewrite filter_app, filter_cons_False, filter_nil, app_nil_r.
Qed.

(** X8: after a delete that returned true, every listing is the listing
    from before with the checks of that id struck out, the rest in the
    same order. *)
Theorem deleteCheck_other_listings (id : string) (filters : CheckFilters) (w w' : World) :
  deleteCheck id w = (Ok true, w') →
  dated Date_getTime (stored w) →
  ∃ before,
    getChecks Date_getTime filters w = (Ok before, w) ∧
    getChecks Date_getTime filters w' =
      (Ok (filter (λ c, check_id c ≠ id) before), w').
Proof.
  intros Hstored%deleteCheck_true_inv Hd.
  eexists. split; [apply getChecks_eq|].
  rewrite getChecks_eq, !narrow_matches, Hstored. do 2 f_equal.
  rewrite filter_sort.
  - f_equal. rewrite !list_filter_filter. apply list_filter_iff. tauto.
  - apply Forall_forall. intros c [_ Hc]%list_elem_of_filter.
    unfold dated in Hd. rewrite Forall_forall in Hd. by apply Hd.
Qed.

End listing.

(** ** The vehicle service *)

(** X9: [getVehicleById] finds a vehicle exactly when [checkVehicleExists]
    says the id exists; the vehicle found has that id and is one of
    [getAllVehicles]; none of the three raises, and on a vehicles file that
    cannot be read they answer as for no vehicles at all. *)
Theorem getVehicleById_checkVehicleExists (id : string) (w : World) :
  ∃ all found known,
    getAllVehicles w = Ok all ∧
    getVehicleById w id = Ok found ∧
    checkVehicleExists w id = Ok known ∧
    (known = true ↔ is_Some found) ∧
    (∀ v, found = Some v → vehicle_id v = id ∧ v ∈ all) ∧
    (vehicles_file w = None → all = [] ∧ found = None ∧ known = false).
Proof.
  exists (default [] (vehicles_file w)).
  exists (find (λ v, String.eqb (vehicle_id v) id) (default [] (vehicles_file w))).
  exists (known_vehicle w id).
  assert (readVehicles w = Ok (default [] (vehicles_file w))) as Hread
    by (unfold readVehicles; by destruct (vehicles_file w)).
  split_and!.
  - done.
  - unfold getVehicleById. by rewrite Hread.
  - apply vehicleExists_known.
  - unfold known_vehicle. rewrite existsb_exists. split.
    + intros (v & Hin & Hv).
      destruct (find _ _) eqn:Hfind; [done|].
      by rewrite (find_none _ _ Hfind v Hin) in Hv.
    + intros [v Hfind]. apply find_some in Hfind. eauto.
  - intros v [Hin Hv]%find_some. split; [by apply String.eqb_eq|].
    by apply list_elem_of_In.
  - intros Hfile. unfold known_vehicle. by rewrite Hfile.
Qed.

(** ** What the validator accepts *)

Lemma known_vehicle_iff w id :
  known_vehicle w id = true ↔
  ∃ v, v ∈ default [] (vehicles_file w) ∧ vehicle_id v = id.
Proof.
  unfold known_vehicle. rewrite existsb_exists.
  split; intros (v & Hin & Hv); exists v.
  - by rewrite list_elem_of_In, <- String.eqb_eq.
  - by rewrite <- list_elem_of_In, String.eqb_eq.
Qed.

Lemma valid_key_truthy k : k ∈ VALID_KEYS → truthy (VStr k) = true.
Proof. unfold VALID_KEYS. set_unfold. intros Hk. by destruct_or!; subst. Qed.

Lemma valid_status_truthy st : st ∈ VALID_STATUSES → truthy (VStr st) = true.
Proof. unfold VALID_STATUSES. set_unfold. intros Hk. by destruct_or!; subst. Qed.

Lemma valid_item_inv item :
  valid_item item = true →
  ∃ k st, get item "key" = Ok (VStr k) ∧ k ∈ VALID_KEYS ∧
          get item "status" = Ok (VStr st) ∧ st ∈ VALID_STATUSES.
Proof.
  unfold valid_item, counted.
  intros [[[_ Hk]%andb_true_iff _]%andb_true_iff Hst]%andb_true_iff.
  apply includes_inv in Hk as (k & Hk & Hkin).
  apply includes_inv in Hst as (st & Hst & Hstin).
  exists k, st. unfold field_of in Hk, Hst.
  destruct item; simplify_eq/=. by rewrite Hk, Hst.
Qed.

Lemma valid_item_intro item k st :
  get item "key" = Ok (VStr k) → k ∈ VALID_KEYS →
  get item "status" = Ok (VStr st) → st ∈ VALID_STATUSES →
  valid_item item = true.
Proof.
  intros Hk%get_Ok_field_of Hkin Hst%get_Ok_field_of Hstin.
  unfold valid_item, counted. rewrite Hk, Hst.
  by rewrite valid_key_truthy, valid_status_truthy, !includes_intro.
Qed.

Lemma items_errors_from_nil index elems :
  items_errors_from index elems = [] → forallb valid_item elems = true.
Proof.
  revert index. induction elems as [|item rest IH]; intros index; simpl; [done|].
  intros [Hitem Hrest]%app_eq_nil. rewrite (IH _ Hrest), andb_true_r.
  apply app_eq_nil in Hitem as [Hk Hst].
  unfold key_errors in Hk. unfold status_errors in Hst.
  unfold valid_item, counted.
  destruct (truthy (field_of item "key")); [|done].
  destruct (includes VALID_KEYS (field_of item "key")); [|done].
  destruct (truthy (field_of item "status")); [|done].
  by destruct (includes VALID_STATUSES (field_of item "status")).
Qed.

Lemma missing_errors_nil required (keys : gset string) :
  missing_errors required keys = [] ↔ ∀ k, k ∈ required → k ∈ keys.
Proof.
  unfold missing_errors. split.
  - intros Hnil%fmap_nil_inv k Hk. destruct (decide (k ∈ keys)) as [|Hout]; [done|].
    by destruct (filter_nil_not_elem_of (λ k, k ∉ keys) required k Hnil Hout).
  - intros Hall. induction required as [|k rest IH]; [done|].
    rewrite filter_cons_False; [|by intros []; apply Hall; left].
    apply IH. intros k' Hk'. apply Hall. by right.
Qed.

Lemma covers_all_keys_collected elems :
  forallb valid_item elems = true →
  (covers_all_keys elems = true ↔ ∀ k, k ∈ VALID_KEYS → k ∈ collected elems ∅).
Proof.
  intros Hvalid. unfold covers_all_keys. rewrite forallb_forall. split.
  - intros Hc k Hk%list_elem_of_In. specialize (Hc k Hk).
    apply existsb_exists in Hc as (item & Hin & Heq).
    apply elem_of_collected. right. exists item.
    rewrite forallb_forall in Hvalid. specialize (Hvalid item Hin).
    split_and!; [by apply list_elem_of_In| |].
    + unfold valid_item in Hvalid. by do 2 (apply andb_true_iff in Hvalid as [Hvalid _]).
    + destruct (field_of item "key"); try done. by apply String.eqb_eq in Heq as ->.
  - intros Hall k Hk%list_elem_of_In. specialize (Hall k Hk).
    apply elem_of_collected in Hall as [Hin|(item & Hin & _ & Hkey)];
      [by apply not_elem_of_empty in Hin|].
    apply existsb_exists. exists item. split; [by apply list_elem_of_In|].
    rewrite Hkey. apply String.eqb_refl.
Qed.

Lemma VALID_KEYS_NoDup : NoDup VALID_KEYS.
Proof. apply (bool_decide_unpack (NoDup VALID_KEYS)). by vm_compute. Qed.

(** Five valid items that cover the keys have each key once. *)
Lemma valid_items_keys elems :
  length elems = 5 → forallb valid_item elems = true → covers_all_keys elems = true →
  Forall2 (λ item k, get item "key" = Ok (VStr k)) elems (key_string <$> elems) ∧
  key_string <$> elems ≡ₚ VALID_KEYS.
Proof.
  intros Hlen Hvalid Hcovers. split.
  - apply Forall2_fmap_r, Forall_Forall2_diag, Forall_forall.
    intros item Hin%list_elem_of_In. rewrite forallb_forall in Hvalid.
    destruct (valid_item_inv item (Hvalid _ Hin)) as (k & st & Hk & _).
    unfold compose, key_string. by rewrite (get_Ok_field_of _ _ _ Hk).
  - symmetry. apply submseteq_length_Permutation.
    + apply NoDup_submseteq; [apply VALID_KEYS_NoDup|].
      intros k Hk%list_elem_of_In. unfold covers_all_keys in Hcovers.
      rewrite forallb_forall in Hcovers.
      apply (Hcovers k), existsb_exists in Hk as (item & Hin%list_elem_of_In & Heq).
      apply list_elem_of_fmap. exists item. split; [|done].
      unfold key_string. destruct (field_of item "key"); try done.
      by apply String.eqb_eq in Heq.
    + by rewrite length_fmap, Hlen.
Qed.

Lemma Accepted_expected w body :
  Accepted w body → dereferenceable body = true ∧ expected_errors w body = [].
Proof.
  intros ((id & Hid & Hne & Hknown%known_vehicle_iff) & (n & Hkm & Hpos) &
          (elems & ks & Hitems & Hkeys & Hperm & Hst) & Hnote).
  assert (Forall (λ item, valid_item item = true) elems) as Hvalid.
  { apply Forall_forall. intros item Hin.
    apply list_elem_of_lookup in Hin as [i Hi].
    destruct (Forall2_lookup_l _ _ _ _ _ Hkeys Hi) as (k & Hk & Hkey).
    rewrite Forall_forall in Hst.
    destruct (Hst item) as (st & Hstatus & Hstin); [by eapply list_elem_of_lookup_2|].
    eapply valid_item_intro; [done| |done..].
    rewrite <- Hperm. by eapply list_elem_of_lookup_2. }
  assert (forallb valid_item elems = true) as Hvalidb.
  { apply forallb_forall. intros item Hin%list_elem_of_In.
    rewrite Forall_forall in Hvalid. by apply Hvalid. }
  assert (covers_all_keys elems = true) as Hcovers.
  { apply forallb_forall. intros k Hk%list_elem_of_In.
    rewrite <- Hperm in Hk. apply list_elem_of_lookup in Hk as [i Hi].
    destruct (Forall2_lookup_r _ _ _ _ _ Hkeys Hi) as (item & Hitem & Hkey).
    apply existsb_exists. exists item.
    split; [by eapply list_elem_of_In, list_elem_of_lookup_2|].
    rewrite (get_Ok_field_of _ _ _ Hkey). apply String.eqb_refl. }
  assert (length elems = 5) as Hlen.
  { by rewrite (Forall2_length _ _ _ Hkeys), Hperm. }
  split.
  - eapply get_items_dereferenceable; [done|].
    eapply Forall_impl; [exact Hvalid|]. intros item Hitem. by destruct item.
  - unfold expected_errors.
    rewrite (get_Ok_field_of _ _ _ Hid), (get_Ok_field_of _ _ _ Hkm),
      (get_Ok_field_of _ _ _ Hitems).
    unfold vehicleId_errors, odometerKm_errors, items_errors. simpl.
    apply String.eqb_neq in Hne. rewrite Hne, Hknown, Hpos, Hlen. simpl.
    rewrite valid_items_no_errors, valid_items_collected by done.
    destruct Hnote as [Hnote|[Hnote|(text & Hnote & Htext)]];
      rewrite (get_Ok_field_of _ _ _ Hnote); simpl; [done..|].
    by rewrite (proj2 (Nat.ltb_ge _ _) Htext).
Qed.

Lemma expected_Accepted w body :
  nullish body = false → expected_errors w body = [] → Accepted w body.
Proof.
  intros Hb. unfold expected_errors.
  intros (Hv & (Hkm & (Hitems & Hnote)%app_eq_nil)%app_eq_nil)%app_eq_nil.
  unfold Accepted. rewrite !(get_field_of body) by done. split_and!.
  - unfold vehicleId_errors in Hv.
    destruct (truthy (field_of body "vehicleId")) eqn:Htruthy; [|done].
    destruct (field_of body "vehicleId") as [| | | |id| |]; try done.
    exists id. split; [done|]. split.
    + intros ->. done.
    + apply known_vehicle_iff. simpl in Hv. by destruct (known_vehicle w id).
  - unfold odometerKm_errors in Hkm.
    destruct (field_of body "odometerKm") as [| | |n| | |]; try done.
    exists n. split; [done|]. by destruct (number_le_zero n).
  - unfold items_errors in Hitems.
    destruct (truthy (field_of body "items")); [|done].
    destruct (field_of body "items") as [| | | | |elems|]; try done.
    simpl in Hitems.
    apply app_eq_nil in Hitems as [Hlen (Hfrom & (_ & Hmiss)%app_eq_nil)%app_eq_nil].
    assert (length elems = 5) as Hlen5.
    { destruct (Nat.eqb_spec (length elems) 5); [done|]. done. }
    apply items_errors_from_nil in Hfrom.
    pose proof (proj1 (missing_errors_nil _ _) Hmiss) as Hall.
    pose proof (proj2 (covers_all_keys_collected elems Hfrom) Hall) as Hcovers.
    clear Hmiss Hall.
    destruct (valid_items_keys elems Hlen5 Hfrom Hcovers) as [Hkeys Hperm].
    exists elems, (key_string <$> elems). split_and!; [done..|].
    apply Forall_forall. intros item Hin%list_elem_of_In.
    rewrite forallb_forall in Hfrom.
    destruct (valid_item_inv item (Hfrom _ Hin)) as (k & st & _ & _ & Hst & Hstin).
    eauto.
  - unfold note_errors in Hnote.
    destruct (field_of body "note") as [| | | |text| |]; try done; [by left|by right; left|].
    right; right. exists text. split; [done|].
    destruct (Nat.ltb_spec 300 (String.length text)); [done|lia].
Qed.

Lemma accepts_Accepted w body :
  validateCheckRequest w body = Ok [] → Accepted w body.
Proof.
  intros Hrun. destruct (dereferenceable body) eqn:Hd.
  - rewrite validateCheckRequest_run in Hrun by done. injection Hrun as Hnil.
    apply expected_Accepted; [|done].
    apply andb_true_iff in Hd as [Hb _]. by apply negb_true_iff in Hb.
  - by rewrite validateCheckRequest_throws in Hrun.
Qed.

Lemma Accepted_accepts w body :
  Accepted w body → validateCheckRequest w body = Ok [].
Proof.
  intros [Hd Hnil]%Accepted_expected. by rewrite validateCheckRequest_run, Hnil.
Qed.

(** X10: [validateCheckRequest] returns the empty list exactly for the
    payloads with a known vehicle, a number that is not [<= 0], items that
    have each of the five keys once with status [OK] or [FAIL], and a note
    that is absent, [null] or a string of at most 300 characters. *)
Theorem validateCheckRequest_accepts_iff (w : World) (body : value) :
  validateCheckRequest w body = Ok [] ↔ Accepted w body.
Proof. split; [apply accepts_Accepted|apply Accepted_accepts]. Qed.

(** X11: for a request that is valid apart from its note, a note string of
    up to 300 characters gives no error, a longer one exactly the error
    "must be <= 300 characters", and a note that is neither absent, [null]
    nor a string exactly the error "must be a string". *)
Theorem note_length_boundary (w : World) (body : value) (v : value) :
  valid_request w body = true →
  get body "note" = Ok v →
  (∀ text, v = VStr text → String.length text ≤ 300 →
           validateCheckRequest w body = Ok []) ∧
  (∀ text, v = VStr text → 300 < String.length text →
           validateCheckRequest w body = Ok [error "note" "must be <= 300 characters"]) ∧
  (is_undefined v = false → is_null v = false → (∀ text, v ≠ VStr text) →
   validateCheckRequest w body = Ok [error "note" "must be a string"]).
Proof.
  intros Hvalid Hnote%get_Ok_field_of.
  rewrite (valid_request_errors _ _ Hvalid), Hnote. split_and!.
  - intros text -> Hlen. simpl. by rewrite (proj2 (Nat.ltb_ge _ _) Hlen).
  - intros text -> Hlen. simpl. by rewrite (proj2 (Nat.ltb_lt _ _) Hlen).
  - intros Hu Hn Hs. destruct v; try done. by destruct (Hs s).
Qed.

(** ** The set-level errors of [items] *)

Lemma collected_valid elems k : k ∈ collected elems ∅ → k ∈ VALID_KEYS.
Proof.
  intros [Hin|(item & _ & Hc & Hk)]%elem_of_collected;
    [by apply not_elem_of_empty in Hin|].
  apply andb_true_iff in Hc as [_ Hc]. rewrite Hk in Hc.
  by apply includes_inv in Hc as (k' & [= ->] & Hin).
Qed.

Lemma collected_has_key elems k :
  Forall (λ item, nullish item = false) elems → k ∈ VALID_KEYS →
  (k ∈ collected elems ∅ ↔ ∃ item, item ∈ elems ∧ get item "key" = Ok (VStr k)).
Proof.
  intros Hall Hk. rewrite elem_of_collected. split.
  - intros [Hin|(item & Hin & _ & Hkey)]; [by apply not_elem_of_empty in Hin|].
    exists item. split; [done|]. rewrite Forall_forall in Hall.
    by rewrite (get_field_of _ _ (Hall _ Hin)), Hkey.
  - intros (item & Hin & Hkey%get_Ok_field_of). right. exists item.
    split_and!; [done| |done]. unfold counted. rewrite Hkey.
    by rewrite valid_key_truthy, includes_intro.
Qed.

(** The set has five keys exactly when no key of the enumeration is
    missing from it. *)
Lemma collected_size elems :
  size (collected elems ∅) = 5 ↔ ∀ k, k ∈ VALID_KEYS → k ∈ collected elems ∅.
Proof.
  assert (collected elems ∅ ⊆ list_to_set VALID_KEYS) as Hsub.
  { intros k Hk. apply elem_of_list_to_set. by eapply collected_valid. }
  assert (size (list_to_set VALID_KEYS : gset string) = 5) as Hfive by reflexivity.
  split.
  - intros Hsize k Hk.
    rewrite (set_subseteq_size_eq _ _ Hsub) by (rewrite Hfive, Hsize; lia).
    by apply elem_of_list_to_set.
  - intros Hall. rewrite <- Hfive. f_equal. apply set_eq. intros k.
    rewrite elem_of_list_to_set. split; [apply collected_valid|apply Hall].
Qed.

Lemma missing_reason_inj k k' :
  error "items" ("missing required key: " +:+ k) =
  error "items" ("missing required key: " +:+ k') → k = k'.
Proof. intros [= Heq]. exact Heq. Qed.

Lemma missing_reason_other k r :
  r = "must contain exactly 5 items" ∨
  r = "must contain all 5 keys exactly once (no duplicates)" →
  error "items" ("missing required key: " +:+ k) ≠ error "items" r.
Proof.
  intros Hr Heq. apply (f_equal (λ e, String.substring 0 2 (reason e))) in Heq.
  destruct Hr as [-> | ->]; discriminate Heq.
Qed.

(** The errors with field ["items"], for a body whose items are an
    array. *)
Lemma expected_errors_items w body elems e :
  field_of body "items" = VArr elems → field e = "items" →
  e ∈ expected_errors w body ↔
  e ∈ (if negb (length elems =? 5)
       then [error "items" "must contain exactly 5 items"] else []) ++
      (if (length elems =? 5) && negb (size (collected elems ∅) =? 5)
       then [duplicates_error] else []) ++
      missing_errors VALID_KEYS (collected elems ∅).
Proof.
  intros Hitems Hfield. unfold expected_errors. rewrite Hitems.
  unfold items_errors. simpl. rewrite !elem_of_app. split.
  - intros [Hin|[Hin|[[Hin|[Hin|[Hin|Hin]]]|Hin]]]; [| |by left| |tauto|tauto|].
    + unfold vehicleId_errors in Hin. repeat case_match; set_unfold; destruct_or?;
        subst; done.
    + unfold odometerKm_errors in Hin. repeat case_match; set_unfold; destruct_or?;
        subst; done.
    + apply elem_of_items_errors_from in Hin as (j & item & _ & Hin).
      assert (plain_field (field e)) as Hplain by (right; right; by left).
      destruct (plain_field_not_indexed _ j Hplain).
      by apply item_errors_field in Hin as [[? _]|[? _]].
    + unfold note_errors in Hin. repeat case_match; set_unfold; destruct_or?;
        subst; done.
  - tauto.
Qed.

Lemma missing_error_iff w body elems k :
  dereferenceable body = true → field_of body "items" = VArr elems →
  error "items" ("missing required key: " +:+ k) ∈ expected_errors w body ↔
  k ∈ VALID_KEYS ∧ k ∉ collected elems ∅.
Proof.
  intros Hd Hitems. rewrite (expected_errors_items _ _ elems) by done.
  rewrite !elem_of_app. split.
  - intros [Hin|[Hin|Hin]].
    + destruct (negb _); [|by apply elem_of_nil in Hin].
      apply list_elem_of_singleton in Hin.
      by eapply missing_reason_other in Hin; [|left].
    + destruct (_ && _); [|by apply elem_of_nil in Hin].
      apply list_elem_of_singleton in Hin.
      by eapply missing_reason_other in Hin; [|right].
    + unfold missing_errors in Hin.
      apply list_elem_of_fmap in Hin as (k' & <-%missing_reason_inj & Hin).
      by apply list_elem_of_filter in Hin as [? ?].
  - intros [Hk Hout]. right; right. unfold missing_errors.
    apply list_elem_of_fmap. exists k. split; [done|].
    by apply list_elem_of_filter.
Qed.

Lemma dereferenceable_items body elems :
  dereferenceable body = true → get body "items" = Ok (VArr elems) →
  field_of body "items" = VArr elems ∧ Forall (λ item, nullish item = false) elems.
Proof.
  intros Hd Hitems%get_Ok_field_of. split; [done|].
  unfold dereferenceable in Hd. rewrite Hitems in Hd.
  apply andb_true_iff in Hd as [_ Hd]. rewrite forallb_forall in Hd.
  apply Forall_forall. intros item Hin%list_elem_of_In.
  by apply negb_true_iff, Hd.
Qed.

(** X12: for a body whose [items] is an array, the error "missing required
    key: K" is reported exactly for the keys K of the enumeration that no
    item has for key. *)
Theorem missing_key_reported_iff (w : World) (body : value) (elems : list value) :
  dereferenceable body = true →
  get body "items" = Ok (VArr elems) →
  ∃ errors,
    validateCheckRequest w body = Ok errors ∧
    ∀ k, error "items" ("missing required key: " +:+ k) ∈ errors ↔
         k ∈ VALID_KEYS ∧ ∀ item, item ∈ elems → get item "key" ≠ Ok (VStr k).
Proof.
  intros Hd Hget. destruct (dereferenceable_items _ _ Hd Hget) as [Hitems Hall].
  exists (expected_errors w body). split; [by apply validateCheckRequest_run|].
  intros k. rewrite (missing_error_iff _ _ elems) by done. split.
  - intros [Hk Hout]. split; [done|]. intros item Hin Hkey. apply Hout.
    apply collected_has_key; eauto.
  - intros [Hk Hnone]. split; [done|].
    intros (item & Hin & Hkey)%collected_has_key; [|done..]. by apply (Hnone item).
Qed.

Lemma duplicates_error_not_length :
  duplicates_error ≠ error "items" "must contain exactly 5 items".
Proof.
  intros Heq. apply (f_equal (λ e, String.length (reason e))) in Heq.
  vm_compute in Heq. discriminate Heq.
Qed.

(** X13: the error "must contain all 5 keys exactly once (no duplicates)"
    is reported exactly when there are five items and some key of the
    enumeration is reported missing; it never comes alone. *)
Theorem duplicates_reported_iff (w : World) (body : value) (elems : list value) :
  dereferenceable body = true →
  get body "items" = Ok (VArr elems) →
  ∃ errors,
    validateCheckRequest w body = Ok errors ∧
    (duplicates_error ∈ errors ↔
     length elems = 5 ∧
     ∃ k, error "items" ("missing required key: " +:+ k) ∈ errors).
Proof.
  intros Hd Hget. destruct (dereferenceable_items _ _ Hd Hget) as [Hitems Hall].
  exists (expected_errors w body). split; [by apply validateCheckRequest_run|].
  assert ((∃ k, error "items" ("missing required key: " +:+ k) ∈ expected_errors w body)
          ↔ size (collected elems ∅) ≠ 5) as ->.
  { rewrite collected_size. split.
    - intros (k & [Hk Hout]%(missing_error_iff _ _ elems)) Hall'; [|done..].
      by apply Hout, Hall'.
    - intros Hnot.
      destruct (decide (Forall (λ k, k ∈ collected elems ∅) VALID_KEYS)) as [Hf|Hf].
      + destruct Hnot. by apply Forall_forall.
      + apply not_Forall_Exists, Exists_exists in Hf as (k & Hk & Hout); [|apply _].
        exists k. by apply (missing_error_iff _ _ elems). }
  rewrite (expected_errors_items _ _ elems) by done. rewrite !elem_of_app.
  destruct (Nat.eqb_spec (length elems) 5) as [Hlen|Hlen]; simpl.
  - destruct (Nat.eqb_spec (size (collected elems ∅)) 5) as [Hsize|Hsize]; simpl.
    + split; [|by intros [_ ?]]. intros [Hin|[Hin|Hin]]; [by set_unfold..|].
      unfold missing_errors in Hin. apply list_elem_of_fmap in Hin as (k & Heq & _).
      symmetry in Heq. by eapply missing_reason_other in Heq; [|right].
    + split; [done|]. intros _. right; left. left.
  - split; [|by intros [? _]]. intros [Hin|[Hin|Hin]].
    { apply list_elem_of_singleton in Hin. by apply duplicates_error_not_length in Hin. }
    { by apply elem_of_nil in Hin. }
    unfold missing_errors in Hin. apply list_elem_of_fmap in Hin as (k & Heq & _).
    symmetry in Heq. by eapply missing_reason_other in Heq; [|right].
Qed.

(** ** One reason per field *)

Local Ltac two_of_one H1 H2 :=
  repeat case_match; set_unfold; destruct_or?; subst; done.

Lemma vehicleId_errors_unique w v e1 e2 :
  e1 ∈ vehicleId_errors w v → e2 ∈ vehicleId_errors w v → e1 = e2.
Proof. unfold vehicleId_errors. intros H1 H2. two_of_one H1 H2. Qed.

Lemma odometerKm_errors_unique v e1 e2 :
  e1 ∈ odometerKm_errors v → e2 ∈ odometerKm_errors v → e1 = e2.
Proof. unfold odometerKm_errors. intros H1 H2. two_of_one H1 H2. Qed.

Lemma note_errors_unique v e1 e2 :
  e1 ∈ note_errors v → e2 ∈ note_errors v → e1 = e2.
Proof. unfold note_errors. intros H1 H2. two_of_one H1 H2. Qed.

Lemma key_errors_unique j v e1 e2 :
  e1 ∈ key_errors j v → e2 ∈ key_errors j v → e1 = e2.
Proof. unfold key_errors. intros H1 H2. two_of_one H1 H2. Qed.

Lemma status_errors_unique j v e1 e2 :
  e1 ∈ status_errors j v → e2 ∈ status_errors j v → e1 = e2.
Proof. unfold status_errors. intros H1 H2. two_of_one H1 H2. Qed.

Lemma expected_errors_from w body e : e ∈ expected_errors w body → origin w body e.
Proof.
  unfold expected_errors. rewrite !elem_of_app. intros [Hin|[Hin|[Hin|Hin]]].
  - apply from_vehicleId; [|done]. unfold vehicleId_errors in Hin. the_error.
  - apply from_odometerKm; [|done]. unfold odometerKm_errors in Hin. the_error.
  - unfold items_errors in Hin.
    destruct (negb (truthy _)); [apply from_items; the_error|].
    destruct (field_of body "items") as [| | | | |elems|] eqn:Hitems;
      try (apply from_items; the_error).
    rewrite !elem_of_app in Hin. destruct Hin as [Hin|[Hin|[Hin|Hin]]].
    + apply from_items. the_error.
    + apply elem_of_items_errors_from in Hin as (j & item & Hj & Hin).
      apply item_errors_field in Hin as [[Hf Hin]|[Hf Hin]].
      * by eapply from_key.
      * by eapply from_status.
    + apply from_items. the_error.
    + apply from_items. unfold missing_errors in Hin.
      by apply list_elem_of_fmap in Hin as (k & -> & _).
  - apply from_note; [|done]. unfold note_errors in Hin. the_error.
Qed.

(** X14: validation stops at the first failed rule of a field: of
    [vehicleId], [odometerKm], [note] and of each [items[i].key] and
    [items[i].status] the list has at most one error.  Only the field
    [items] can have several. *)
Theorem one_reason_per_field (w : World) (body : value) :
  dereferenceable body = true →
  ∃ errors,
    validateCheckRequest w body = Ok errors ∧
    ∀ e1 e2, e1 ∈ errors → e2 ∈ errors →
             field e1 = field e2 → field e1 ≠ "items" → e1 = e2.
Proof.
  intros Hd. exists (expected_errors w body).
  split; [by apply validateCheckRequest_run|].
  intros e1 e2 H1%expected_errors_from H2%expected_errors_from Heq Hne.
  assert (∀ f j, plain_field f → f = key_field j ∨ f = status_field j → False)
    as Hplain.
  { intros f j Hf. destruct (plain_field_not_indexed f j Hf). tauto. }
  assert (plain_field "vehicleId") as Pv by (by left).
  assert (plain_field "odometerKm") as Po by (right; by left).
  assert (plain_field "note") as Pn by (do 3 right; done).
  destruct H1 as [F1 I1|F1 I1|F1 I1|F1|l1 j1 i1 L1 J1 F1 I1|l1 j1 i1 L1 J1 F1 I1];
    [| | |congruence| |];
    (destruct H2 as [F2 I2|F2 I2|F2 I2|F2|l2 j2 i2 L2 J2 F2 I2|l2 j2 i2 L2 J2 F2 I2];
     [| | |congruence| |]);
    rewrite F1, F2 in Heq;
    try discriminate Heq;
    try (by eapply vehicleId_errors_unique);
    try (by eapply odometerKm_errors_unique);
    try (by eapply note_errors_unique);
    try (exfalso; eapply Hplain; [|left; exact Heq]; done);
    try (exfalso; eapply Hplain; [|right; exact Heq]; done);
    try (exfalso; eapply Hplain; [|left; symmetry; exact Heq]; done);
    try (exfalso; eapply Hplain; [|right; symmetry; exact Heq]; done).
  - apply key_field_inj in Heq as <-. rewrite L1 in L2. simplify_eq.
    by eapply key_errors_unique.
  - by apply key_field_status_field in Heq.
  - symmetry in Heq. by apply key_field_status_field in Heq.
  - apply status_field_inj in Heq as <-. rewrite L1 in L2. simplify_eq.
    by eapply status_errors_unique.
Qed.

(** ** POST /checks *)

Lemma createCheck_handler_eq uuid now body w :
  checkController.createCheck uuid now body w =
    match validateCheckRequest w body with
    | Throw _ => (Ok (json 500 (JErrorMessage "Internal Server Error")), w)
    | Ok errors =>
        if 0 <? length errors then
          (Ok (json 400 (JError {| code := "VALIDATION_ERROR";
                                   message := "We got Invalid Req Body";
                                   details := errors |})), w)
        else
          match createCheck_of_body uuid now body w with
          | (Ok c, w') => (Ok (json 201 (JCheck c)), w')
          | (Throw _, w') => (Ok (json 500 (JErrorMessage "Internal Server Error")), w')
          end
    end.
Proof.
  unfold checkController.createCheck, try_service, mbind, Service_bind, reading,
    mret, Service_ret.
  destruct (validateCheckRequest w body) as [errors|e]; [|done].
  destruct (0 <? length errors); [done|].
  by destruct (createCheck_of_body uuid now body w) as [[c|e] w'].
Qed.

Lemma as_CheckItem_valid item k st :
  get item "key" = Ok (VStr k) → get item "status" = Ok (VStr st) →
  as_CheckItem item = Some {| key := k; status := st |}.
Proof. unfold as_CheckItem. by intros -> ->. Qed.

Lemma key_string_Forall2 elems ks :
  Forall2 (λ item k, get item "key" = Ok (VStr k)) elems ks →
  key_string <$> elems = ks.
Proof.
  induction 1 as [|item k elems ks Hk _ IH]; [done|].
  rewrite fmap_cons, IH. f_equal. unfold key_string.
  by rewrite (get_Ok_field_of _ _ _ Hk).
Qed.

(** A body that the validator lets through has the shape of
    [CreateCheckData]. *)
Lemma validated_body_has_shape w body :
  Accepted w body →
  ∃ d elems,
    as_CreateCheckData body = Some d ∧
    get body "vehicleId" = Ok (VStr (vehicleId d)) ∧
    get body "odometerKm" = Ok (VNum (odometerKm d)) ∧
    get body "items" = Ok (VArr elems) ∧
    get body "note" = Ok (note d) ∧
    Forall2 (λ item i, get item "key" = Ok (VStr (key i)) ∧
                       get item "status" = Ok (VStr (status i))) elems (items d) ∧
    key <$> items d ≡ₚ VALID_KEYS ∧
    Forall (λ i, status i ∈ VALID_STATUSES) (items d).
Proof.
  intros ((id & Hid & _) & (n & Hkm & _) & (elems & ks & Hitems & Hkeys & Hperm & Hst) & _).
  destruct body as [| | | | | |props]; try done.
  simpl in Hid, Hkm, Hitems. injection Hid as Hid. injection Hkm as Hkm.
  injection Hitems as Hitems.
  set (its := (λ item, {| key := key_string item; status := status_string item |})
                <$> elems).
  assert (Forall2 (λ item i, get item "key" = Ok (VStr (key i)) ∧
                             get item "status" = Ok (VStr (status i))) elems its)
    as Hshape.
  { apply Forall2_fmap_r, Forall_Forall2_diag, Forall_forall. intros item Hin.
    unfold compose; simpl.
    apply list_elem_of_lookup in Hin as [i Hi].
    destruct (Forall2_lookup_l _ _ _ _ _ Hkeys Hi) as (k & _ & Hk).
    rewrite Forall_forall in Hst.
    destruct (Hst item) as (st & Hstatus & _); [by eapply list_elem_of_lookup_2|].
    unfold key_string, status_string.
    by rewrite (get_Ok_field_of _ _ _ Hk), (get_Ok_field_of _ _ _ Hstatus). }
  assert (mapM as_CheckItem elems = Some its) as Hmap.
  { apply mapM_Some. eapply Forall2_impl; [exact Hshape|].
    intros item i [Hk Hs]. destruct i. by apply as_CheckItem_valid. }
  eexists _, elems. split.
  { unfold as_CreateCheckData. rewrite Hid, Hkm, Hitems, Hmap. reflexivity. }
  simpl. rewrite Hid, Hkm, Hitems. split_and!; [done..| |].
  - assert (key <$> its = ks) as ->; [|done].
    rewrite <- (key_string_Forall2 _ _ Hkeys). unfold its.
    by rewrite <- list_fmap_compose.
  - apply Forall_forall. intros i Hi. unfold its in Hi.
    apply list_elem_of_fmap in Hi as (item & -> & Hin). simpl.
    rewrite Forall_forall in Hst. destruct (Hst item Hin) as (st & Hstatus & Hstin).
    unfold status_string. by rewrite (get_Ok_field_of _ _ _ Hstatus).
Qed.

(** X15: [POST /checks] always answers and never raises.  When the
    validator reports errors the answer is 400 with exactly those errors and
    nothing is written; when the validator raises (a [null] body or item)
    the answer is 500 and nothing is written; when there is no error the
    answer is 201 if the store takes the write and 500 if it does not. *)
Theorem POST_checks_answers uuid now (body : value) (w : World) :
  ∃ res w',
    checkController.createCheck uuid now body w = (Ok res, w') ∧
    (∀ e, validateCheckRequest w body = Throw e →
          res = json 500 (JErrorMessage "Internal Server Error") ∧ w' = w) ∧
    (∀ errors, validateCheckRequest w body = Ok errors → errors ≠ [] →
               res = json 400 (JError {| code := "VALIDATION_ERROR";
                                         message := "We got Invalid Req Body";
                                         details := errors |}) ∧ w' = w) ∧
    (validateCheckRequest w body = Ok [] →
     if write_fault w
     then res = json 500 (JErrorMessage "Internal Server Error")
     else ∃ c, res = json 201 (JCheck c) ∧ stored w' = stored w ++ [c]).
Proof.
  rewrite createCheck_handler_eq.
  destruct (validateCheckRequest w body) as [[|e errors]|e] eqn:Hrun; simpl.
  - pose proof (accepts_Accepted _ _ Hrun) as Hacc.
    destruct (validated_body_has_shape _ _ Hacc) as (d & elems & Hd & _).
    unfold createCheck_of_body. rewrite Hd.
    destruct (write_fault w) eqn:Hw.
    + destruct (createCheck_fault uuid now d w Hw) as (w' & ->).
      do 2 eexists. split; [done|].
      split_and!; [done|by intros errors [= <-]|by intros _].
    + destruct (createCheck_ok uuid now d w Hw) as (c & -> & _).
      do 2 eexists. split; [done|].
      split_and!; [done|by intros errors [= <-]|]. intros _. by exists c.
  - do 2 eexists. split; [done|]. split_and!; [done| |done].
    by intros errors' [= <-] _.
  - do 2 eexists. split; [done|]. by split_and!.
Qed.

(** X16: a check created through [POST /checks] is well formed: it has the
    generated id and timestamp, the vehicle of the request, which is on
    file, the five keys once each with status [OK] or [FAIL], and a
    [hasIssue] that is true exactly when an item of the request has status
    [FAIL]; it is the check appended to the store. *)
Theorem created_check_well_formed uuid now (body : value) (w : World) :
  validateCheckRequest w body = Ok [] →
  write_fault w = false →
  ∃ c w' elems,
    checkController.createCheck uuid now body w = (Ok (json 201 (JCheck c)), w') ∧
    stored w' = stored w ++ [c] ∧
    check_id c = uuid ∧ check_createdAt c = now ∧
    get body "vehicleId" = Ok (VStr (check_vehicleId c)) ∧
    (∃ v, v ∈ default [] (vehicles_file w) ∧ vehicle_id v = check_vehicleId c) ∧
    key <$> check_items c ≡ₚ VALID_KEYS ∧
    Forall (λ i, status i ∈ VALID_STATUSES) (check_items c) ∧
    get body "items" = Ok (VArr elems) ∧
    (check_hasIssue c = true ↔
     ∃ item, item ∈ elems ∧ get item "status" = Ok (VStr "FAIL")).
Proof.
  intros Hrun Hw. rewrite createCheck_handler_eq, Hrun. simpl.
  pose proof (accepts_Accepted _ _ Hrun) as Hacc.
  destruct (validated_body_has_shape _ _ Hacc)
    as (d & elems & Hd & Hid & _ & Hitems & _ & Hshape & Hperm & Hst).
  unfold createCheck_of_body. rewrite Hd.
  destruct (createCheck_ok uuid now d w Hw)
    as (c & -> & Hcid & Hat & Hvid & _ & Hits & Hflag & _).
  exists c; eexists; exists elems. split; [done|].
  rewrite Hvid, Hits. split_and!; [done..| |done|done|done|].
  - destruct Hacc as ((id & Hid' & _ & Hknown) & _). rewrite Hid in Hid'.
    by injection Hid' as ->.
  - rewrite Hflag, some_FAIL. split.
    + intros (i & Hin & Hfail). apply list_elem_of_lookup in Hin as [j Hj].
      destruct (Forall2_lookup_r _ _ _ _ _ Hshape Hj) as (item & Hitem & _ & Hs).
      exists item. split; [by eapply list_elem_of_lookup_2|]. by rewrite Hs, Hfail.
    + intros (item & Hin & Hfail). apply list_elem_of_lookup in Hin as [j Hj].
      destruct (Forall2_lookup_l _ _ _ _ _ Hshape Hj) as (i & Hi & _ & Hs).
      exists i. split; [by eapply list_elem_of_lookup_2|]. rewrite Hs in Hfail.
      by injection Hfail.
Qed.

Lemma interface_props_get body k v n :
  k ∉ interface_props → n ∈ interface_props →
  get (with_prop k v body) n = get body n.
Proof.
  intros Hk Hn. destruct body as [| | | | | |props]; try done. simpl.
  destruct (String.eqb_spec n k) as [->|]; [done|done].
Qed.

Lemma validateCheckRequest_ext w b1 b2 :
  (∀ n, n ∈ interface_props → get b1 n = get b2 n) →
  validateCheckRequest w b1 = validateCheckRequest w b2.
Proof.
  intros Hget.
  unfold validateCheckRequest, validateVehicleId, validateOdometerKm, validateItems,
    validateNote.
  rewrite (Hget "vehicleId"), (Hget "odometerKm"), (Hget "items"), (Hget "note");
    [done|unfold interface_props; set_solver..].
Qed.

Lemma createCheck_of_body_ext uuid now body k v w :
  k ∉ interface_props →
  createCheck_of_body uuid now (with_prop k v body) w =
  createCheck_of_body uuid now body w.
Proof.
  intros Hk. destruct body as [| | | | | |props]; try done.
  assert (∀ n, n ∈ interface_props → own_prop n ((k, v) :: props) = own_prop n props)
    as Hown.
  { intros n Hn. simpl. by destruct (String.eqb_spec n k) as [->|]. }
  unfold createCheck_of_body, as_CreateCheckData, with_prop.
  rewrite (Hown "vehicleId"), (Hown "odometerKm"), (Hown "items"), (Hown "note")
    by (unfold interface_props; set_solver).
  destruct (own_prop "vehicleId" props); try done.
  destruct (own_prop "odometerKm" props); try done.
  destruct (own_prop "items" props); try done.
  by destruct (mapM as_CheckItem elems).
Qed.

(** X17: a property of the request body other than [vehicleId],
    [odometerKm], [items] and [note] (a [hasIssue], [id] or [createdAt]
    sent by the client) changes neither the answer of [POST /checks] nor
    what is stored. *)
Theorem other_properties_ignored uuid now (body : value) (k : string) (v : value)
    (w : World) :
  k ∉ interface_props →
  checkController.createCheck uuid now (with_prop k v body) w =
  checkController.createCheck uuid now body w.
Proof.
  intros Hk. rewrite !createCheck_handler_eq.
  rewrite (validateCheckRequest_ext w (with_prop k v body) body)
    by (intros n Hn; by apply interface_props_get).
  by rewrite createCheck_of_body_ext.
Qed.

(** X18: [POST /checks] stores the note as it was sent: no [note] property
    when the body has none, and otherwise the value of the body, the empty
    string and [null] included. *)
Theorem note_stored_as_sent uuid now (body : value) (w : World) :
  validateCheckRequest w body = Ok [] →
  write_fault w = false →
  ∃ c w',
    checkController.createCheck uuid now body w = (Ok (json 201 (JCheck c)), w') ∧
    stored w' = stored w ++ [c] ∧
    (get body "note" = Ok VUndefined → check_note c = None) ∧
    (∀ v, get body "note" = Ok v → v ≠ VUndefined → check_note c = Some v).
Proof.
  intros Hrun Hw. rewrite createCheck_handler_eq, Hrun. simpl.
  pose proof (accepts_Accepted _ _ Hrun) as Hacc.
  destruct (validated_body_has_shape _ _ Hacc) as (d & elems & Hd & _ & _ & _ & Hnote & _).
  unfold createCheck_of_body. rewrite Hd.
  destruct (createCheck_ok uuid now d w Hw) as (c & -> & _ & _ & _ & _ & _ & _ & Hcn).
  exists c; eexists. split; [done|]. split; [done|]. rewrite Hcn, Hnote. split.
  - by intros [= ->].
  - intros v [= Heq] Hv. rewrite Heq. by destruct v.
Qed.

(** ** GET /checks *)

(** X19: [GET /checks] never raises and never writes.  Without a non-empty
    string for [vehicleId] it answers 400; otherwise it answers 200 with
    exactly the stored checks of that vehicle, narrowed, when a [hasIssue]
    parameter is present, to the checks whose flag is true if the parameter
    is the string ["true"] and false for any other value. *)
Theorem GET_checks_answers (Date_getTime : string → option Z) (vid h : value) (w : World) :
  ∃ res,
    checkController.getChecks Date_getTime vid h w = (Ok res, w) ∧
    ((∀ v, vid = VStr v → v = "") →
     res = json 400 (JError {| code := "VALIDATION_ERROR"; message := "Invalid request";
                               details := [error "vehicleId" "is required"] |})) ∧
    (∀ v, vid = VStr v → v ≠ "" →
       ∃ l, res = json 200 (JChecks l) ∧
            ∀ c, c ∈ l ↔
                 c ∈ stored w ∧ check_vehicleId c = v ∧
                 (h = VUndefined ∨ check_hasIssue c = str_strict_eq "true" h)).
Proof.
  unfold checkController.getChecks.
  destruct vid as [| | | |v| |]; try (eexists; split; [done|]; by split).
  simpl. destruct (String.eqb_spec v "") as [->|Hv]; simpl.
  { eexists. split; [done|]. split; [done|]. by intros v [= <-]. }
  unfold mbind, Service_bind. rewrite getChecks_eq, narrow_matches.
  eexists. split; [done|]. split; [intros Hall; by destruct Hv; apply Hall|].
  intros v' [= <-] _. eexists. split; [done|]. intros c.
  rewrite sort_perm, list_elem_of_filter. unfold matches.
  destruct h; simpl; intuition congruence.
Qed.

(** ** DELETE /checks/:id *)

Lemma deleteCheck_handler_eq i w :
  i ≠ "" →
  checkController.deleteCheck (VStr i) w =
    match deleteCheck i w with
    | (Ok deleted, w') =>
        (Ok (if negb deleted
             then json 404 (JError {| code := "NOT_FOUND"; message := "Check not found";
                                      details := [] |})
             else {| statusCode := 204; sent := None |}), w')
    | (Throw e, w') => (Throw e, w')
    end.
Proof.
  intros Hi%String.eqb_neq. unfold checkController.deleteCheck. simpl. rewrite Hi. simpl.
  unfold mbind, Service_bind. destruct (deleteCheck i w) as [[[]|e] w']; done.
Qed.

(** X20: on a store that takes writes, [DELETE /checks/:id] answers 204
    when a check with the id is stored, and a repeat of the request then
    answers 404; it answers 404 with the store untouched when no check has
    the id. *)
Theorem DELETE_check_answers (i : string) (w : World) :
  i ≠ "" →
  write_fault w = false →
  ∃ res w',
    checkController.deleteCheck (VStr i) w = (Ok res, w') ∧
    ((∃ c, c ∈ stored w ∧ check_id c = i) →
       res = {| statusCode := 204; sent := None |} ∧
       stored w' = filter (λ c, check_id c ≠ i) (stored w) ∧
       ∃ again, checkController.deleteCheck (VStr i) w' = (Ok again, w') ∧
                statusCode again = 404) ∧
    ((∀ c, c ∈ stored w → check_id c ≠ i) →
       res = json 404 (JError {| code := "NOT_FOUND"; message := "Check not found";
                                 details := [] |}) ∧ w' = w).
Proof.
  intros Hi Hw. rewrite (deleteCheck_handler_eq _ _ Hi), deleteCheck_eq. cbv zeta.
  destruct (Nat.eqb_spec (length (filter (λ c, check_id c ≠ i) (stored w)))
                         (length (stored w))) as [Hlen|Hlen].
  - apply (filter_keeps_all (λ c, check_id c ≠ i)) in Hlen.
    rewrite Forall_forall in Hlen.
    do 2 eexists. split; [done|]. split; [|done].
    intros (c & Hc & Hid). by destruct (Hlen c Hc).
  - rewrite (writeChecks_ok _ _ Hw). do 2 eexists. split; [done|]. split.
    + intros _. split; [done|]. split; [done|].
      rewrite (deleteCheck_handler_eq _ _ Hi), deleteCheck_absent.
      * by eexists.
      * by intros c [? _]%list_elem_of_filter.
    + intros Hnone. destruct Hlen.
      by apply (filter_keeps_all (λ c, check_id c ≠ i)), Forall_forall.
Qed.

(** X21: [DELETE /checks/:id] has no catch of its own: when a check with
    the id is stored and the store cannot be written, the handler raises,
    and the application answers through the error middleware with 500,
    code [INTERNAL_SERVER_ERROR], no details and a message that is not
    empty. *)
Theorem DELETE_write_fault_answers_500 (Error_message : exn → string)
    (i : string) (w : World) :
  i ≠ "" →
  write_fault w = true →
  (∃ c, c ∈ stored w ∧ check_id c = i) →
  (∃ e w', checkController.deleteCheck (VStr i) w = (Throw e, w')) ∧
  ∃ msg w',
    app Error_message (checkController.deleteCheck (VStr i)) w =
      (json 500 (JError {| code := "INTERNAL_SERVER_ERROR"; message := msg;
                           details := [] |}), w') ∧
    msg ≠ "".
Proof.
  intros Hi Hw (c & Hc & Hid).
  assert (∃ w', checkController.deleteCheck (VStr i) w = (Throw IOError, w'))
    as [w' Hrun].
  { rewrite (deleteCheck_handler_eq _ _ Hi), deleteCheck_eq. cbv zeta.
    destruct (Nat.eqb_spec (length (filter (λ c, check_id c ≠ i) (stored w)))
                           (length (stored w))) as [Hlen|Hlen].
    - apply (filter_keeps_all (λ c, check_id c ≠ i)) in Hlen.
      rewrite Forall_forall in Hlen. by destruct (Hlen c Hc).
    - rewrite (writeChecks_fault _ _ Hw). by eexists. }
  split; [by eauto|].
  unfold app, errorHandler. rewrite Hrun. do 2 eexists. split; [done|].
  destruct (String.eqb_spec (Error_message IOError) ""); done.
Qed.

(** ** GET /vehicles and the vehicle rule of the validator *)

(** X22: [GET /vehicles] always answers 200, with no vehicle when the file
    cannot be read; and the vehicles it lists are the ones the validator
    knows: for a non-empty [vehicleId] string the error "vehicle does not
    exist" is reported exactly when no listed vehicle has that id. *)
Theorem listed_vehicles_are_known (w : World) (body : value) (id : string) :
  id ≠ "" →
  dereferenceable body = true →
  get body "vehicleId" = Ok (VStr id) →
  ∃ l errors,
    vehicleController.getAllVehicles w = (Ok (json 200 (JVehicles l)), w) ∧
    (vehicles_file w = None → l = []) ∧
    validateCheckRequest w body = Ok errors ∧
    (error "vehicleId" "vehicle does not exist" ∈ errors ↔
     ∀ v, v ∈ l → vehicle_id v ≠ id).
Proof.
  intros Hid Hd Hget%get_Ok_field_of.
  exists (default [] (vehicles_file w)), (expected_errors w body). split_and!.
  - unfold vehicleController.getAllVehicles, mbind, Service_bind, reading,
      getAllVehicles, readVehicles.
    by destruct (vehicles_file w).
  - by intros ->.
  - by apply validateCheckRequest_run.
  - assert (known_vehicle w id = false ↔
            ∀ v, v ∈ default [] (vehicles_file w) → vehicle_id v ≠ id) as <-.
    { rewrite <- not_true_iff_false, known_vehicle_iff. split.
      - intros Hnone v Hv Heq. apply Hnone. by exists v.
      - intros Hall (v & Hv & Heq). by apply (Hall v). }
    apply String.eqb_neq in Hid. split.
    + intros [_ Hv| | | | |]%expected_errors_from; try done.
      rewrite Hget in Hv. unfold vehicleId_errors in Hv. simpl in Hv.
      rewrite Hid in Hv. simpl in Hv.
      destruct (known_vehicle w id); [|done]. by apply elem_of_nil in Hv.
    + intros Hknown. unfold expected_errors. rewrite Hget.
      unfold vehicleId_errors. simpl. rewrite Hid, Hknown. simpl. left.
Qed.

(** ** The inspection form *)

Lemma handleItemStatusChange_keys k st its :
  key <$> handleItemStatusChange k st its = key <$> its.
Proof.
  unfold handleItemStatusChange. rewrite <- list_fmap_compose.
  apply list_fmap_ext. intros _ item _. simpl. by destruct (String.eqb _ _).
Qed.

Lemma handleItemStatusChange_statuses k st its :
  st ∈ VALID_STATUSES →
  Forall (λ i, status i ∈ VALID_STATUSES) its →
  Forall (λ i, status i ∈ VALID_STATUSES) (handleItemStatusChange k st its).
Proof.
  intros Hst Hits. unfold handleItemStatusChange. apply Forall_fmap.
  eapply Forall_impl; [exact Hits|]. intros item Hitem. simpl.
  by destruct (String.eqb _ _).
Qed.

Lemma form_after_snoc changes change :
  form_after (changes ++ [change]) =
  handleItemStatusChange change.1 change.2 (form_after changes).
Proof. unfold form_after. by rewrite foldl_app. Qed.

Lemma form_after_invariant changes :
  Forall (λ change, change.2 ∈ VALID_STATUSES) changes →
  key <$> form_after changes = CHECK_ITEMS ∧
  Forall (λ i, status i ∈ VALID_STATUSES) (form_after changes).
Proof.
  induction changes as [|change changes IH] using rev_ind; intros Hall.
  - split; [reflexivity|]. unfold form_after, form_items, VALID_STATUSES. simpl.
    repeat (constructor; [simpl; left|]). constructor.
  - apply Forall_app in Hall as [Hall Hchange]. rewrite Forall_singleton in Hchange.
    destruct (IH Hall) as [Hkeys Hst]. rewrite form_after_snoc. split.
    + by rewrite handleItemStatusChange_keys.
    + apply handleItemStatusChange_statuses; [exact Hchange|exact Hst].
Qed.

(** X23: whatever radio buttons are clicked, the form holds the five keys,
    once each and in their order, each with status [OK] or [FAIL]. *)
Theorem form_items_invariant (changes : list (string * string)) :
  Forall (λ change, change.2 ∈ VALID_STATUSES) changes →
  key <$> form_after changes = CHECK_ITEMS ∧
  Forall (λ i, status i ∈ VALID_STATUSES) (form_after changes).
Proof. apply form_after_invariant. Qed.

(** X24: [handleItemStatusChange(key, status)] sets the status of the items
    with that key and leaves every other item, and the order, as they
    were; a second change of the same key overrides the first. *)
Theorem handleItemStatusChange_sets (k st st' : string) (its : list CheckItem) :
  length (handleItemStatusChange k st its) = length its ∧
  (∀ j i, its !! j = Some i →
          handleItemStatusChange k st its !! j =
            Some (if decide (key i = k) then {| key := k; status := st |} else i)) ∧
  handleItemStatusChange k st' (handleItemStatusChange k st its) =
    handleItemStatusChange k st' its.
Proof.
  unfold handleItemStatusChange. split_and!.
  - apply length_fmap.
  - intros j i Hj. rewrite list_lookup_fmap, Hj. simpl. f_equal.
    destruct (String.eqb_spec (key i) k) as [<-|Hne].
    + by rewrite decide_True.
    + by rewrite decide_False.
  - rewrite <- list_fmap_compose. apply list_fmap_ext. intros _ item _. simpl.
    destruct (String.eqb_spec (key item) k) as [Heq|Hne]; simpl.
    + by rewrite Heq, String.eqb_refl.
    + by apply String.eqb_neq in Hne as ->.
Qed.

Lemma item_json_shape its :
  Forall2 (λ item i, get item "key" = Ok (VStr (key i)) ∧
                     get item "status" = Ok (VStr (status i)))
          (item_json <$> its) its.
Proof. apply Forall2_fmap_l, Forall_Forall2_diag, Forall_forall. by intros i _. Qed.

Lemma submitted_body_Accepted w v q its text :
  v ∈ default [] (vehicles_file w) → vehicle_id v ≠ "" →
  Qle_bool q 0 = false →
  key <$> its = CHECK_ITEMS → Forall (λ i, status i ∈ VALID_STATUSES) its →
  String.length text ≤ MAX_NOTE_LENGTH →
  Accepted w (submitted_body (vehicle_id v) (Finite q) its text).
Proof.
  intros Hv Hid Hq Hkeys Hst Htext. unfold Accepted. split_and!.
  - exists (vehicle_id v). split; [done|]. split; [done|]. by exists v.
  - by exists (Finite q).
  - exists (item_json <$> its), (key <$> its). split_and!; [done| |by rewrite Hkeys|].
    + apply Forall2_fmap, Forall_Forall2_diag, Forall_forall. by intros i _.
    + apply Forall_fmap. eapply Forall_impl; [exact Hst|]. intros i Hi. simpl.
      by exists (status i).
  - right; right. by exists text.
Qed.

Lemma as_CreateCheckData_submitted id q its text :
  as_CreateCheckData (submitted_body id (Finite q) its text) =
    Some {| vehicleId := id; odometerKm := Finite q; items := its;
            note := VStr text; excess := [] |}.
Proof.
  unfold as_CreateCheckData, submitted_body. simpl.
  assert (mapM as_CheckItem (item_json <$> its) = Some its) as ->; [|done].
  apply mapM_Some. eapply Forall2_impl; [apply item_json_shape|].
  intros item [k st] [Hk Hs]. by apply as_CheckItem_valid.
Qed.

(** X25: what the form submits for a listed vehicle, a positive reading
    and a note of at most 300 characters passes the validator, whatever
    radio buttons were clicked; the check created from it has the items of
    the form and the text of the notes box as its note, the empty string
    when the box was left empty. *)
Theorem form_submission_accepted uuid now (w : World) (v : Vehicle) (q : Q)
    (changes : list (string * string)) (text : string) :
  v ∈ default [] (vehicles_file w) → vehicle_id v ≠ "" →
  Qle_bool q 0 = false →
  Forall (λ change, change.2 ∈ VALID_STATUSES) changes →
  String.length text ≤ MAX_NOTE_LENGTH →
  let body := submitted_body (vehicle_id v) (Finite q) (form_after changes) text in
  validateCheckRequest w body = Ok [] ∧
  (write_fault w = false →
   ∃ c w',
     checkController.createCheck uuid now body w = (Ok (json 201 (JCheck c)), w') ∧
     check_items c = form_after changes ∧
     check_note c = Some (VStr text)).
Proof.
  intros Hv Hid Hq Hchanges Htext body.
  destruct (form_after_invariant changes Hchanges) as [Hkeys Hst].
  assert (validateCheckRequest w body = Ok []) as Hrun
    by by apply Accepted_accepts, submitted_body_Accepted.
  split; [done|]. intros Hw.
  rewrite createCheck_handler_eq, Hrun. simpl.
  unfold createCheck_of_body, body. rewrite as_CreateCheckData_submitted.
  destruct (createCheck_ok uuid now
              {| vehicleId := vehicle_id v; odometerKm := Finite q;
                 items := form_after changes; note := VStr text; excess := [] |}
              w Hw) as (c & -> & _ & _ & _ & _ & Hits & _ & Hnote).
  by exists c; eexists.
Qed.

Lemma submitted_body_fields id km its text :
  field_of (submitted_body id km its text) "vehicleId" = VStr id ∧
  field_of (submitted_body id km its text) "odometerKm" = json_number km ∧
  field_of (submitted_body id km its text) "items" = VArr (item_json <$> its) ∧
  field_of (submitted_body id km its text) "note" = VStr text.
Proof. by split_and!. Qed.

(** X26: a reading that [parseFloat] cannot read ([NaN]) is sent as [null]
    and draws, for an otherwise acceptable form, exactly the error
    "is required" for [odometerKm]. *)
Theorem blank_odometer_is_required (w : World) (v : Vehicle)
    (changes : list (string * string)) (text : string) :
  v ∈ default [] (vehicles_file w) → vehicle_id v ≠ "" →
  Forall (λ change, change.2 ∈ VALID_STATUSES) changes →
  String.length text ≤ MAX_NOTE_LENGTH →
  validateCheckRequest w (submitted_body (vehicle_id v) NaN (form_after changes) text)
  = Ok [error "odometerKm" "is required"].
Proof.
  intros Hv Hid Hchanges Htext.
  destruct (form_after_invariant changes Hchanges) as [Hkeys Hst].
  pose proof (submitted_body_Accepted w v 1 (form_after changes) text
                Hv Hid eq_refl Hkeys Hst Htext) as Hacc.
  apply Accepted_expected in Hacc as [Hd Hnil].
  rewrite validateCheckRequest_run by exact Hd. f_equal.
  revert Hnil. unfold expected_errors.
  destruct (submitted_body_fields (vehicle_id v) (Finite 1) (form_after changes) text)
    as (-> & -> & -> & ->).
  destruct (submitted_body_fields (vehicle_id v) NaN (form_after changes) text)
    as (-> & -> & -> & ->).
  intros (Hv' & (_ & (Hi & Hn)%app_eq_nil)%app_eq_nil)%app_eq_nil.
  by rewrite Hv', Hi, Hn.
Qed.

(** ** Toasts *)

Lemma NoDup_fmap_filter {A B} (f : A → B) (P : A → Prop) `{!∀ x, Decision (P x)}
    (l : list A) :
  NoDup (f <$> l) → NoDup (f <$> filter P l).
Proof.
  induction l as [|x l IH]; [done|]. rewrite fmap_cons, NoDup_cons.
  intros [Hx Hl]. rewrite filter_cons. destruct (decide (P x)); [|by apply IH].
  rewrite fmap_cons, NoDup_cons. split; [|by apply IH].
  intros (y & Hy & [_ Hin]%list_elem_of_filter)%list_elem_of_fmap.
  apply Hx, list_elem_of_fmap. by exists y.
Qed.

Lemma toast_step_invariant s ev :
  NoDup (toast_id <$> toasts s) →
  Forall (λ t, 1 ≤ toast_id t ≤ toastIdCounter s) (toasts s) →
  NoDup (toast_id <$> toasts (toast_step s ev)) ∧
  Forall (λ t, 1 ≤ toast_id t ≤ toastIdCounter (toast_step s ev))
         (toasts (toast_step s ev)) ∧
  toastIdCounter s ≤ toastIdCounter (toast_step s ev).
Proof.
  intros Hnodup Hbound. destruct ev as [m type|id]; simpl.
  - split_and!; [| |lia].
    + rewrite fmap_app. apply NoDup_app. split_and!; [done| |apply NoDup_singleton].
      intros x (t & Heq & Hin)%list_elem_of_fmap Hnew.
      simpl in Hnew. apply list_elem_of_singleton in Hnew.
      rewrite Forall_forall in Hbound. specialize (Hbound t Hin). simpl in *. lia.
    + apply Forall_app. split.
      * eapply Forall_impl; [exact Hbound|]. intros t Ht. simpl in *. lia.
      * apply Forall_singleton. simpl. lia.
  - split_and!; [by apply NoDup_fmap_filter| |lia].
    apply Forall_forall. intros t [_ Hin]%list_elem_of_filter.
    rewrite Forall_forall in Hbound. by apply Hbound.
Qed.

Lemma toasts_after_snoc events ev :
  toasts_after (events ++ [ev]) = toast_step (toasts_after events) ev.
Proof. unfold toasts_after. by rewrite foldl_app. Qed.

Lemma toasts_after_invariant events :
  NoDup (toast_id <$> toasts (toasts_after events)) ∧
  Forall (λ t, 1 ≤ toast_id t ≤ toastIdCounter (toasts_after events))
         (toasts (toasts_after events)).
Proof.
  induction events as [|ev events [Hnodup Hbound]] using rev_ind.
  - split; [apply NoDup_nil_2|constructor].
  - rewrite toasts_after_snoc.
    by destruct (toast_step_invariant _ ev Hnodup Hbound) as (? & ? & _).
Qed.

(** X27: however [showToast] and [dismissToast] are called, the toasts on
    display have pairwise different ids, none of them above the counter. *)
Theorem toast_ids_distinct (events : list ToastEvent) :
  NoDup (toast_id <$> toasts (toasts_after events)) ∧
  Forall (λ t, 1 ≤ toast_id t ≤ toastIdCounter (toasts_after events))
         (toasts (toasts_after events)).
Proof. apply toasts_after_invariant. Qed.

Lemma dismissed_stays_away id s events :
  id ≤ toastIdCounter s → id ∉ toast_id <$> toasts s →
  id ≤ toastIdCounter (foldl toast_step s events) ∧
  id ∉ toast_id <$> toasts (foldl toast_step s events).
Proof.
  revert s. induction events as [|ev events IH]; intros s Hle Hout; [done|].
  simpl. apply IH.
  - destruct ev; simpl; lia.
  - destruct ev as [m type|id']; simpl.
    + rewrite fmap_app, elem_of_app. intros [Hin|Hin%list_elem_of_singleton]; [done|].
      simpl in Hin. lia.
    + intros (t & -> & [_ Hin]%list_elem_of_filter)%list_elem_of_fmap.
      apply Hout, list_elem_of_fmap. by exists t.
Qed.

(** X28: dismissing the toast that was just shown gives back the toasts
    that were on display before it; and a toast that was dismissed does not
    come back, whatever is shown or dismissed afterwards. *)
Theorem dismissed_toast_is_gone (before after : list ToastEvent)
    (m : string) (type : ToastType) (id : nat) :
  toasts (toasts_after (before ++ [Shown m type;
                                    Dismissed (S (toastIdCounter (toasts_after before)))]))
    = toasts (toasts_after before) ∧
  (id ≤ toastIdCounter (toasts_after before) →
   id ∉ toast_id <$> toasts (toasts_after (before ++ Dismissed id :: after))).
Proof.
  split.
  - unfold toasts_after at 1. rewrite foldl_app. simpl.
    fold (toasts_after before). rewrite filter_app_fresh; [done| |by intros []].
    destruct (toasts_after_invariant before) as [_ Hbound].
    eapply Forall_impl; [exact Hbound|]. intros t Ht. simpl in *. lia.
  - intros Hle. unfold toasts_after. rewrite foldl_app. simpl.
    fold (toasts_after before). apply dismissed_stays_away; [done|].
    simpl. intros (t & -> & [Hne _]%list_elem_of_filter)%list_elem_of_fmap.
    by destruct Hne.
Qed.

(** ** The issue filter of the history view *)

(** X29: the three choices of the issue filter reach the service as they
    are meant: through [api.getChecks] and [GET /checks], "all" lists every
    stored check of the vehicle, "true" the ones with an issue and "false"
    the ones without. *)
Theorem issue_filter_round_trip (Date_getTime : string → option Z)
    (v hasIssueFilter : string) (w : World) :
  v ≠ "" →
  hasIssueFilter ∈ ["all"; "true"; "false"] →
  let query := api_getChecks_query v (hasIssueParam hasIssueFilter) in
  ∃ l,
    checkController.getChecks Date_getTime query.1 query.2 w
      = (Ok (json 200 (JChecks l)), w) ∧
    ∀ c, c ∈ l ↔
         c ∈ stored w ∧ check_vehicleId c = v ∧
         (hasIssueFilter = "all" ∨
          check_hasIssue c = String.eqb hasIssueFilter "true").
Proof.
  intros Hv%String.eqb_neq Hf query. unfold query, checkController.getChecks.
  simpl. rewrite Hv. simpl.
  unfold mbind, Service_bind. rewrite getChecks_eq, narrow_matches.
  eexists. split; [done|]. intros c.
  rewrite sort_perm, list_elem_of_filter. unfold matches.
  set_unfold. destruct Hf as [-> | [-> | [-> | []]]]; simpl; intuition congruence.
Qed.

(** ** Instances of the further properties *)

Local Ltac not_stored :=
  let c := fresh "c" in let Hc := fresh "Hc" in
  intros c Hc;
  repeat (apply elem_of_cons in Hc as [->|Hc]; [by intros [=]|]);
  by apply elem_of_nil in Hc.


Lemma deleteCheck_createCheck_witness :
  write_fault mockWorld = false ∧
  ∃ c w' w'',
    createCheck "test-uuid-1234" "2026-01-27T10:00:00.000Z" notedData mockWorld
      = (Ok c, w') ∧
    deleteCheck "test-uuid-1234" w' = (Ok true, w'') ∧
    stored w'' = [CHK001; CHK002].
Proof.
  split; [reflexivity|].
  apply (deleteCheck_createCheck "test-uuid-1234" "2026-01-27T10:00:00.000Z"
           notedData mockWorld); [reflexivity|not_stored].
Defined.

Lemma unreadable_store_reads_as_empty_witness :
  checks_file corruptWorld = None ∧
  deleteCheck "CHK001" corruptWorld = (Ok false, corruptWorld) ∧
  ∃ c w',
    createCheck "test-uuid-1234" "2026-01-27T10:00:00.000Z" notedData corruptWorld
      = (Ok c, w') ∧
    checks_file w' = Some [c].
Proof.
  split; [reflexivity|].
  destruct (unreadable_store_reads_as_empty mock_getTime
              "test-uuid-1234" "2026-01-27T10:00:00.000Z" notedData
              {| filter_vehicleId := "VH001"; filter_hasIssue := None |}
              "CHK001" corruptWorld eq_refl) as (_ & _ & Hdelete & Hcreate).
  split; [exact Hdelete|]. exact (Hcreate eq_refl).
Defined.

Lemma mock_dated : dated mock_getTime [CHK001; CHK002; CHK003].
Proof. repeat constructor; by eexists. Qed.

Lemma getChecks_stable_witness :
  dated mock_getTime (stored tieWorld) ∧
  ∃ l,
    getChecks mock_getTime {| filter_vehicleId := "VH001"; filter_hasIssue := None |}
      tieWorld = (Ok l, tieWorld) ∧
    filter (λ c, mock_getTime (check_createdAt c) = Some 1768897800000%Z) l
      = [CHK001; CHK003].
Proof.
  split; [exact mock_dated|].
  destruct (getChecks_stable mock_getTime
              {| filter_vehicleId := "VH001"; filter_hasIssue := None |}
              1768897800000%Z tieWorld mock_dated) as (l & Hrun & Hties).
  exists l. split; [exact Hrun|]. rewrite Hties. reflexivity.
Defined.

Lemma createCheck_listed_first_witness :
  write_fault mockWorld = false ∧
  mock_getTime "2026-01-27T10:00:00.000Z" = Some 1769508000000%Z ∧
  ∃ c w',
    createCheck "test-uuid-1234" "2026-01-27T10:00:00.000Z" notedData mockWorld
      = (Ok c, w') ∧
    getChecks mock_getTime {| filter_vehicleId := "VH001"; filter_hasIssue := None |} w'
      = (Ok [c; CHK002; CHK001], w').
Proof.
  split; [reflexivity|]. split; [reflexivity|].
  destruct (createCheck_listed_first mock_getTime "test-uuid-1234"
              "2026-01-27T10:00:00.000Z" notedData 1769508000000%Z mockWorld
              eq_refl eq_refl) as (c & w' & before & Hrun & Hbefore & Hafter).
  - intros c Hc _.
    repeat (apply elem_of_cons in Hc as [->|Hc]; [eexists; split; [reflexivity|lia]|]).
    by apply elem_of_nil in Hc.
  - exists c, w'. split; [exact Hrun|].
    assert (before = [CHK002; CHK001]) as <-; [|exact Hafter].
    assert (getChecks mock_getTime
              {| filter_vehicleId := "VH001"; filter_hasIssue := None |} mockWorld
            = (Ok [CHK002; CHK001], mockWorld)) as Hlist by reflexivity.
    simpl in Hbefore. rewrite Hbefore in Hlist. by injection Hlist.
Defined.

Lemma createCheck_other_listings_witness :
  ∃ c w' l,
    createCheck "test-uuid-1234" "2026-01-27T10:00:00.000Z" notedData mockWorld
      = (Ok c, w') ∧
    getChecks mock_getTime {| filter_vehicleId := "VH002"; filter_hasIssue := None |} w'
      = (Ok l, w') ∧
    getChecks mock_getTime {| filter_vehicleId := "VH002"; filter_hasIssue := None |}
      mockWorld = (Ok l, mockWorld).
Proof.
  do 2 eexists.
  destruct (createCheck_other_listings mock_getTime "test-uuid-1234"
              "2026-01-27T10:00:00.000Z" notedData
              {| filter_vehicleId := "VH002"; filter_hasIssue := None |}
              mockWorld _ _ eq_refl) as (l & Hbefore & Hafter).
  - by intros [[=] _].
  - exists l. split; [reflexivity|]. split; [exact Hafter|exact Hbefore].
Defined.

Lemma deleteCheck_other_listings_witness :
  dated mock_getTime (stored tieWorld) ∧
  ∃ w',
    deleteCheck "CHK002" tieWorld = (Ok true, w') ∧
    getChecks mock_getTime {| filter_vehicleId := "VH001"; filter_hasIssue := None |} w'
      = (Ok [CHK001; CHK003], w').
Proof.
  split; [exact mock_dated|].
  assert (deleteCheck "CHK002" tieWorld
          = (Ok true, (deleteCheck "CHK002" tieWorld).2)) as Hrun
    by (vm_compute; reflexivity).
  eexists. split; [exact Hrun|].
  destruct (deleteCheck_other_listings mock_getTime "CHK002"
              {| filter_vehicleId := "VH001"; filter_hasIssue := None |}
              tieWorld _ Hrun mock_dated) as (before & Hbefore & Hafter).
  rewrite Hafter. f_equal.
  assert (getChecks mock_getTime
            {| filter_vehicleId := "VH001"; filter_hasIssue := None |} tieWorld
          = (Ok [CHK002; CHK001; CHK003], tieWorld)) as Hlist
    by (vm_compute; reflexivity).
  rewrite Hbefore in Hlist. injection Hlist as ->. vm_compute. reflexivity.
Defined.

Local Ltac not_listed :=
  let H := fresh "H" in
  intros H;
  repeat (apply elem_of_cons in H as [[=]|H]);
  by apply elem_of_nil in H.

Local Ltac listed := repeat first [by left | right].

Lemma note_length_boundary_witness :
  let body := with_prop "note" (VStr (note_of_length 301)) validBody in
  valid_request mockWorld body = true ∧
  validateCheckRequest mockWorld body
    = Ok [error "note" "must be <= 300 characters"].
Proof.
  intros body.
  assert (valid_request mockWorld body = true) as Hvalid by (vm_compute; reflexivity).
  split; [exact Hvalid|].
  destruct (note_length_boundary mockWorld body (VStr (note_of_length 301))
              Hvalid eq_refl) as (_ & Hlong & _).
  apply (Hlong (note_of_length 301) eq_refl).
  replace (String.length (note_of_length 301)) with 301 by (vm_compute; reflexivity).
  lia.
Defined.

Lemma missing_key_reported_iff_witness :
  dereferenceable doubledBody = true ∧
  ∃ errors,
    validateCheckRequest mockWorld doubledBody = Ok errors ∧
    error "items" "missing required key: BRAKES" ∈ errors ∧
    error "items" "missing required key: TYRES" ∉ errors.
Proof.
  split; [reflexivity|].
  destruct (missing_key_reported_iff mockWorld doubledBody doubledItems
              eq_refl eq_refl) as (errors & Hrun & Hiff).
  exists errors. split; [exact Hrun|]. split.
  - refine (proj2 (Hiff "BRAKES") _). split; [listed|].
    intros item Hitem Hkey.
    repeat (apply elem_of_cons in Hitem as [->|Hitem];
            [vm_compute in Hkey; discriminate Hkey|]).
    exact (proj1 (elem_of_nil item) Hitem).
  - intros Hin. destruct (proj1 (Hiff "TYRES") Hin) as [_ Hnone].
    apply (Hnone (item_value "TYRES" "OK")); [left|reflexivity].
Defined.

Lemma duplicates_reported_iff_witness :
  dereferenceable doubledBody = true ∧
  ∃ errors,
    validateCheckRequest mockWorld doubledBody = Ok errors ∧
    duplicates_error ∈ errors.
Proof.
  split; [reflexivity|].
  destruct (duplicates_reported_iff mockWorld doubledBody doubledItems
              eq_refl eq_refl) as (errors & Hrun & Hiff).
  exists errors. split; [exact Hrun|].
  apply Hiff. split; [reflexivity|]. exists "BRAKES".
  vm_compute in Hrun. injection Hrun as <-.
  apply list_elem_of_In. vm_compute. tauto.
Defined.

Lemma one_reason_per_field_witness :
  let body := with_prop "note" (VNum NaN) (with_prop "odometerKm" VNull doubledBody) in
  dereferenceable body = true ∧
  ∃ errors,
    validateCheckRequest mockWorld body = Ok errors ∧
    ∀ e1 e2, e1 ∈ errors → e2 ∈ errors →
             field e1 = field e2 → field e1 ≠ "items" → e1 = e2.
Proof.
  intros body. split; [reflexivity|].
  apply (one_reason_per_field mockWorld body). reflexivity.
Defined.

Lemma created_check_well_formed_witness :
  validateCheckRequest mockWorld validBody = Ok [] ∧
  ∃ c w',
    checkController.createCheck "test-uuid-1234" "2026-01-27T10:00:00.000Z"
      validBody mockWorld = (Ok (json 201 (JCheck c)), w') ∧
    stored w' = [CHK001; CHK002; c] ∧
    check_vehicleId c = "VH001" ∧
    key <$> check_items c ≡ₚ VALID_KEYS ∧
    check_hasIssue c = false.
Proof.
  assert (validateCheckRequest mockWorld validBody = Ok []) as Hvalid
    by (vm_compute; reflexivity).
  split; [exact Hvalid|].
  destruct (created_check_well_formed "test-uuid-1234" "2026-01-27T10:00:00.000Z"
              validBody mockWorld Hvalid eq_refl)
    as (c & w' & elems & Hrun & Hstored & _ & _ & Hid & _ & Hkeys & _ & Helems & Hissue).
  exists c, w'. split; [exact Hrun|]. split; [exact Hstored|].
  split; [|split; [exact Hkeys|]].
  - simpl in Hid. by injection Hid.
  - destruct (check_hasIssue c); [|reflexivity].
    destruct (proj1 Hissue eq_refl) as (item & Hitem & Hfail).
    injection Helems as <-.
    repeat (apply elem_of_cons in Hitem as [->|Hitem];
            [vm_compute in Hfail; discriminate Hfail|]).
    destruct (proj1 (elem_of_nil item) Hitem).
Defined.

Lemma other_properties_ignored_witness :
  checkController.createCheck "test-uuid-1234" "2026-01-27T10:00:00.000Z"
    (with_prop "hasIssue" (VBool true) validBody) mockWorld =
  checkController.createCheck "test-uuid-1234" "2026-01-27T10:00:00.000Z"
    validBody mockWorld.
Proof.
  apply (other_properties_ignored "test-uuid-1234" "2026-01-27T10:00:00.000Z"
           validBody "hasIssue" (VBool true) mockWorld).
  not_listed.
Defined.

Lemma note_stored_as_sent_witness :
  validateCheckRequest mockWorld emptyNoteBody = Ok [] ∧
  ∃ c w',
    checkController.createCheck "test-uuid-1234" "2026-01-27T10:00:00.000Z"
      emptyNoteBody mockWorld = (Ok (json 201 (JCheck c)), w') ∧
    check_note c = Some (VStr "").
Proof.
  assert (validateCheckRequest mockWorld emptyNoteBody = Ok []) as Hvalid
    by (vm_compute; reflexivity).
  split; [exact Hvalid|].
  destruct (note_stored_as_sent "test-uuid-1234" "2026-01-27T10:00:00.000Z"
              emptyNoteBody mockWorld Hvalid eq_refl)
    as (c & w' & Hrun & _ & _ & Hnote).
  exists c, w'. split; [exact Hrun|].
  apply Hnote; [reflexivity|discriminate].
Defined.

Lemma DELETE_check_answers_witness :
  ∃ w',
    checkController.deleteCheck (VStr "CHK001") mockWorld
      = (Ok {| statusCode := 204; sent := None |}, w') ∧
    stored w' = [CHK002] ∧
    ∃ again, checkController.deleteCheck (VStr "CHK001") w' = (Ok again, w') ∧
             statusCode again = 404.
Proof.
  destruct (DELETE_check_answers "CHK001" mockWorld) as (res & w' & Hrun & Hfound & _);
    [discriminate|reflexivity|].
  destruct Hfound as (-> & Hstored & Hagain).
  { exists CHK001. split; [left|reflexivity]. }
  exists w'. split; [exact Hrun|]. split; [|exact Hagain].
  rewrite Hstored. vm_compute. reflexivity.
Defined.

Lemma DELETE_write_fault_answers_500_witness :
  write_fault readOnlyWorld = true ∧
  ∃ w',
    app (λ _, "") (checkController.deleteCheck (VStr "CHK001")) readOnlyWorld =
      (json 500 (JError {| code := "INTERNAL_SERVER_ERROR";
                           message := "An unexpected error occurred";
                           details := [] |}), w').
Proof.
  split; [reflexivity|].
  destruct (DELETE_write_fault_answers_500 (λ _, "") "CHK001" readOnlyWorld)
    as (_ & msg & w' & Hrun & _); [discriminate|reflexivity| |].
  { exists CHK001. split; [left|reflexivity]. }
  exists w'. rewrite Hrun. vm_compute in Hrun. injection Hrun as <- _.
  reflexivity.
Defined.

Lemma listed_vehicles_are_known_witness :
  let body := with_prop "vehicleId" (VStr "VH999") validBody in
  dereferenceable body = true ∧
  ∃ l errors,
    vehicleController.getAllVehicles mockWorld
      = (Ok (json 200 (JVehicles l)), mockWorld) ∧
    validateCheckRequest mockWorld body = Ok errors ∧
    (error "vehicleId" "vehicle does not exist" ∈ errors ↔
     ∀ v, v ∈ l → vehicle_id v ≠ "VH999").
Proof.
  intros body. split; [reflexivity|].
  destruct (listed_vehicles_are_known mockWorld body "VH999")
    as (l & errors & Hlist & _ & Hrun & Hiff);
    [discriminate|reflexivity|reflexivity|].
  exists l, errors. split; [exact Hlist|]. split; [exact Hrun|exact Hiff].
Defined.

Lemma form_items_invariant_witness :
  key <$> form_after [("TYRES", "FAIL"); ("OIL", "FAIL"); ("TYRES", "OK")]
    = CHECK_ITEMS ∧
  Forall (λ i, status i ∈ VALID_STATUSES)
    (form_after [("TYRES", "FAIL"); ("OIL", "FAIL"); ("TYRES", "OK")]).
Proof.
  apply (form_items_invariant [("TYRES", "FAIL"); ("OIL", "FAIL"); ("TYRES", "OK")]).
  repeat constructor; simpl; listed.
Defined.

Lemma form_submission_accepted_witness :
  let body :=
    submitted_body "VH001" (Finite (inject_Z 15000))
      (form_after [("BRAKES", "FAIL")]) "pads worn" in
  validateCheckRequest mockWorld body = Ok [] ∧
  ∃ c w',
    checkController.createCheck "test-uuid-1234" "2026-01-27T10:00:00.000Z"
      body mockWorld = (Ok (json 201 (JCheck c)), w') ∧
    check_items c = form_after [("BRAKES", "FAIL")] ∧
    check_note c = Some (VStr "pads worn").
Proof.
  intros body.
  destruct (form_submission_accepted "test-uuid-1234" "2026-01-27T10:00:00.000Z"
              mockWorld VH001 (inject_Z 15000) [("BRAKES", "FAIL")] "pads worn")
    as (Hvalid & Hcreate).
  - left.
  - discriminate.
  - reflexivity.
  - repeat constructor; simpl; listed.
  - vm_compute. lia.
  - split; [exact Hvalid|]. exact (Hcreate eq_refl).
Defined.

Lemma blank_odometer_is_required_witness :
  validateCheckRequest mockWorld
    (submitted_body "VH001" NaN (form_after [("BRAKES", "FAIL")]) "pads worn")
  = Ok [error "odometerKm" "is required"].
Proof.
  apply (blank_odometer_is_required mockWorld VH001 [("BRAKES", "FAIL")] "pads worn").
  - left.
  - discriminate.
  - repeat constructor; simpl; listed.
  - vm_compute. lia.
Defined.

Lemma issue_filter_round_trip_witness :
  let query := api_getChecks_query "VH001" (hasIssueParam "true") in
  ∃ l,
    checkController.getChecks mock_getTime query.1 query.2 mockWorld
      = (Ok (json 200 (JChecks l)), mockWorld) ∧
    ∀ c, c ∈ l ↔
         c ∈ stored mockWorld ∧ check_vehicleId c = "VH001" ∧
         ("true" = "all" ∨ check_hasIssue c = String.eqb "true" "true").
Proof.
  apply (issue_filter_round_trip mock_getTime "VH001" "true" mockWorld).
  - discriminate.
  - listed.
Defined.
